(** * The streaming chat session: websocket handler, chat manager, database

    A shallow embedding of the parts of [main.py], [chat.py], [database.py]
    and [agents.py] that serve one chat request over the [/ws] websocket:
    [Database] (connection handling, entitlement check, conversations,
    messages, activity log), [ChatManager.get_agent_response_stream] and the
    body of the receive loop of [websocket_endpoint].

    Python values are modelled as follows.
    - [str] is [string], holding the bytes of the UTF-8 encoding of the
      text; [len] counts its code points; [+=] on strings is [append].
    - A value read with [dict.get] is an [option string] ([None] when the key
      is absent or null); truthiness of such a value is [truthy].
    - An exception is a class name with its message; [str(e)] is the message.
    - A coroutine is a function on the [World], the state it can change,
      returning a value or a raised exception together with the new world:
      what was written before an exception stays written.
    - An async generator is the list of the values it yields together with
      the exception that ends it, if any.

    What lies outside the repository is modelled by its observable
    behaviour.
    - The database server answers one round trip at a time; each round trip
      may fail, and time passes on the server's clock, which does not run
      backwards, before each. The tables are lists of rows in insertion
      order.
    - The OpenAI client either raises on [create] or returns a stream of
      chunks that may end with an exception.
    - The websocket delivers what is sent: [send_text] appends to the
      transcript of the channel and does not raise, and
      [release_connection] does not raise either.
    - The chat turn ([loop_body], [handle_request]) takes the inbound
      record as [json.loads] and [message_data.get] deliver it when its
      values are strings or null. What the endpoint does with a text that
      is not such a record is modelled by [loop_turn] and [handle_frame]. *)

From Stdlib Require Import String List Arith Bool Lia.
From Stdlib Require Import Sorting.Sorted Sorting.Permutation.
Import ListNotations.
Open Scope string_scope.
Open Scope list_scope.

(** ** Python values *)

Record exn := Exn { exn_class : string; exn_msg : string }.

(** [str(e)] *)
Definition str (e : exn) : string := exn_msg e.

Definition ValueError (msg : string) : exn := Exn "ValueError" msg.
Definition IndexError (msg : string) : exn := Exn "IndexError" msg.
Definition AttributeError (msg : string) : exn := Exn "AttributeError" msg.
Definition TypeError (msg : string) : exn := Exn "TypeError" msg.

(** A byte [10xxxxxx], which continues a code point in UTF-8. *)
Definition continuation (c : Ascii.ascii) : bool :=
  match c with
  | Ascii.Ascii _ _ _ _ _ _ b6 b7 => b7 && negb b6
  end.

(** [len(s)] of a [str]: the number of its code points. Every code point
    has exactly one byte that is not a continuation byte. *)
Fixpoint len (s : string) : nat :=
  match s with
  | EmptyString => 0
  | String c rest => (if continuation c then 0 else 1) + len rest
  end.

(** Truthiness of an optional string: [None] and the empty string are
    false. *)
Definition truthy (v : option string) : bool :=
  match v with
  | None => false
  | Some s => negb (s =? EmptyString)
  end.

(** [all([...])] *)
Definition all (vs : list (option string)) : bool := forallb truthy vs.

(** The concatenation of [parts], in order. *)
Definition join (parts : list string) : string := fold_right append EmptyString parts.

Inductive result (A : Type) : Type :=
| Ok (a : A)
| Raise (e : exn).
Arguments Ok {A} a.
Arguments Raise {A} e.

(** ** Rows of the tables created by [Database.init_database] *)

(** [user_agent_access] *)
Record access_row := {
  ua_user_id : string;
  ua_agent_id : string;
  ua_payment_intent_id : option string;
  ua_granted_at : nat
}.

(** [conversations] *)
Record conversation_row := {
  c_id : string;
  c_user_id : string;
  c_agent_id : string;
  c_title : string;
  c_created_at : nat;
  c_updated_at : nat
}.

(** [messages] *)
Record message_row := {
  m_conversation_id : string;
  m_role : string;
  m_content : string;
  m_created_at : nat
}.

(** A value of the [metadata] dict of an activity event. *)
Inductive json :=
| JStr (s : string)
| JNum (n : nat)
| JNull.

Definition json_of (v : option string) : json :=
  match v with
  | Some s => JStr s
  | None => JNull
  end.

(** [activity_logs]; [al_metadata] is the dict that [json.dumps] serialises,
    [None] for SQL NULL. *)
Record activity_row := {
  al_user_id : string;
  al_action : string;
  al_metadata : option (list (string * json));
  al_created_at : nat
}.

(** ** Records sent on the websocket

    [ChunkRec] is [{"type": "chunk", "content": .., "conversation_id": ..}],
    [CompleteRec] is [{"type": "complete", "conversation_id": ..}] and
    [ErrorRec] is [{"error": ..}]. *)
Inductive record :=
| ChunkRec (content : string) (conversation_id : string)
| CompleteRec (conversation_id : string)
| ErrorRec (error : string).

Definition is_chunk (r : record) : bool :=
  match r with ChunkRec _ _ => true | _ => false end.

Definition is_complete (r : record) : bool :=
  match r with CompleteRec _ => true | _ => false end.

Definition is_error (r : record) : bool :=
  match r with ErrorRec _ => true | _ => false end.

(** The records that end the protocol cycle of a request. *)
Definition is_terminal (r : record) : bool := is_complete r || is_error r.

(** The [content] fields of the chunk records of a transcript, in order. *)
Fixpoint chunk_contents (rs : list record) : list string :=
  match rs with
  | [] => []
  | ChunkRec c _ :: rest => c :: chunk_contents rest
  | _ :: rest => chunk_contents rest
  end.

(** ** What happened, in order

    A journal of the SQL statements the server executed and of the calls of
    the response generator, kept to state which came first. *)
Inductive event :=
| SelectAccess (user_id agent_id : string)
| InsertConversation (id user_id agent_id : string)
| InsertMessage (conversation_id role content : string)
| UpdateConversation (conversation_id : string)
| InsertActivity (user_id action : string)
| StreamRequested (agent_id : string) (user_message : string).

(** ** The world a request runs in *)

Record World := mkWorld {
  (* Database.database_url, Database.pool, connections not yet released *)
  database_url : option string;
  pool : bool;
  checked_out : nat;
  (* tables *)
  user_agent_access : list access_row;
  conversations : list conversation_row;
  messages : list message_row;
  activity_logs : list activity_row;
  (* the database server: its NOW() and the round trips it has served *)
  clock : nat;
  served : nat;
  (* records sent on the websocket, oldest first *)
  channel : list record;
  journal : list event
}.

Definition set_pool (b : bool) (w : World) : World :=
  mkWorld (database_url w) b (checked_out w) (user_agent_access w)
    (conversations w) (messages w) (activity_logs w) (clock w) (served w)
    (channel w) (journal w).

Definition set_checked_out (n : nat) (w : World) : World :=
  mkWorld (database_url w) (pool w) n (user_agent_access w)
    (conversations w) (messages w) (activity_logs w) (clock w) (served w)
    (channel w) (journal w).

Definition set_conversations (cs : list conversation_row) (w : World) : World :=
  mkWorld (database_url w) (pool w) (checked_out w) (user_agent_access w)
    cs (messages w) (activity_logs w) (clock w) (served w)
    (channel w) (journal w).

Definition set_messages (ms : list message_row) (w : World) : World :=
  mkWorld (database_url w) (pool w) (checked_out w) (user_agent_access w)
    (conversations w) ms (activity_logs w) (clock w) (served w)
    (channel w) (journal w).

Definition set_activity_logs (ls : list activity_row) (w : World) : World :=
  mkWorld (database_url w) (pool w) (checked_out w) (user_agent_access w)
    (conversations w) (messages w) ls (clock w) (served w)
    (channel w) (journal w).

Definition set_server (now n : nat) (w : World) : World :=
  mkWorld (database_url w) (pool w) (checked_out w) (user_agent_access w)
    (conversations w) (messages w) (activity_logs w) now n
    (channel w) (journal w).

Definition set_channel (rs : list record) (w : World) : World :=
  mkWorld (database_url w) (pool w) (checked_out w) (user_agent_access w)
    (conversations w) (messages w) (activity_logs w) (clock w) (served w)
    rs (journal w).

Definition set_journal (es : list event) (w : World) : World :=
  mkWorld (database_url w) (pool w) (checked_out w) (user_agent_access w)
    (conversations w) (messages w) (activity_logs w) (clock w) (served w)
    (channel w) es.

(** ** Coroutines: state and exceptions *)

Definition M (A : Type) : Type := World -> result A * World.

Definition ret {A} (a : A) : M A := fun w => (Ok a, w).

Definition raise {A} (e : exn) : M A := fun w => (Raise e, w).

Definition bind {A B} (c : M A) (k : A -> M B) : M B :=
  fun w =>
    match c w with
    | (Ok a, w') => k a w'
    | (Raise e, w') => (Raise e, w')
    end.

Definition gets {A} (f : World -> A) : M A := fun w => (Ok (f w), w).

Definition modify (f : World -> World) : M unit := fun w => (Ok tt, f w).

(** [try: c except Exception as e: h e] *)
Definition try_except {A} (c : M A) (h : exn -> M A) : M A :=
  fun w =>
    match c w with
    | (Ok a, w') => (Ok a, w')
    | (Raise e, w') => h e w'
    end.

(** [try: c finally: f] *)
Definition try_finally {A} (c : M A) (f : M unit) : M A :=
  fun w =>
    match c w with
    | (r, w') =>
        match f w' with
        | (Ok _, w'') => (r, w'')
        | (Raise e, w'') => (Raise e, w'')
        end
    end.

Declare Scope py_scope.
Delimit Scope py_scope with py.
Notation "x <- c ;; k" := (bind c (fun x => k))
  (at level 61, c at next level, right associativity) : py_scope.
Notation "c ;; k" := (bind c (fun _ => k))
  (at level 61, right associativity) : py_scope.
Open Scope py_scope.

(** ** The OpenAI client, as [chat.py] uses it *)

(** One element of the stream: [choices[i].delta.content] for each [i]. *)
Record stream_chunk := { choices : list (option string) }.

(** What [chat.completions.create(..., stream=True)] does: it raises, or it
    returns a stream that delivers [chunks] and then ends, normally or with
    an exception. *)
Inductive completion :=
| CreateRaises (e : exn)
| Streaming (chunks : list stream_chunk) (failure : option exn).

Record chat_message := { cm_role : string; cm_content : string }.

(** An entry of [AgentManager.agents]; the entries added by the admin
    endpoints have no ["system_prompt"] key. *)
Record Agent := {
  agent_type : string;
  system_prompt : option string
}.

(** What a request cannot change: the behaviour of the database server
    (the [n]-th round trip fails with [outcome n], [elapsed n] passes on the
    server's clock before it, [gen_random_uuid n] is the identifier drawn in
    it), the OpenAI client ([None] when [OPENAI_API_KEY] is not set) and the
    agent catalog. A failing round trip stands for anything asyncpg can
    raise: a lost connection, a violated constraint, a malformed UUID. *)
Record Env := {
  outcome : nat -> option exn;
  elapsed : nat -> nat;
  gen_random_uuid : nat -> string;
  openai_client : option (string -> list chat_message -> completion);
  agents : list (string * Agent)
}.

(** The row [log_activity] inserts:
    [json.dumps(metadata) if metadata else None], so that an empty dict is
    stored as NULL. *)
Definition activity_of (user_id action : string)
    (metadata : list (string * json)) (ts : nat) : activity_row :=
  {| al_user_id := user_id; al_action := action;
     al_metadata := match metadata with
                    | [] => None
                    | _ => Some metadata
                    end;
     al_created_at := ts |}.

(** The inbound record, as read by [message_data.get]. *)
Record message_data := {
  user_id : option string;
  agent_id : option string;
  message : option string;
  conversation_id : option string
}.

(** An async generator that has run to its end. *)
Definition generator : Type := list string * option exn.

(** [try: body except Exception as e: handler e] inside a generator: what
    [body] yielded before it raised stays yielded. *)
Definition gen_try (body : generator) (handler : exn -> generator) : generator :=
  match body with
  | (ys, None) => (ys, None)
  | (ys, Some e) => let (ys', r) := handler e in (ys ++ ys', r)
  end.

Section Server.

Variable E : Env.

(** ** database.py *)

(** One round trip to the database server; returns its index. *)
Definition round_trip : M nat :=
  fun w =>
    let n := served w in
    let w' := set_server (clock w + elapsed E n) (S n) w in
    match outcome E n with
    | Some e => (Raise e, w')
    | None => (Ok n, w')
    end.

Definition note (ev : event) : M unit :=
  modify (fun w => set_journal (journal w ++ [ev]) w).

(** [Database.get_connection]: [asyncpg.create_pool] when there is no pool
    yet, then [pool.acquire]. *)
Definition get_connection : M unit :=
  url <- gets database_url;;
  if negb (truthy url) then raise (ValueError "Database not configured")
  else
    p <- gets pool;;
    (if negb p then (round_trip;; modify (set_pool true)) else ret tt);;
    round_trip;;
    modify (fun w => set_checked_out (S (checked_out w)) w).

(** [Database.release_connection] *)
Definition release_connection : M unit :=
  modify (fun w => set_checked_out (pred (checked_out w)) w).

Definition free_agents : list string :=
  ["creative-writer"; "code-helper"; "research-assistant"].

(** [agent_id in free_agents] *)
Definition is_free (agent_id : string) : bool :=
  existsb (String.eqb agent_id) free_agents.

(** [SELECT id FROM user_agent_access WHERE user_id = $1 AND agent_id = $2] *)
Definition fetch_access (user_id agent_id : string) : M (option access_row) :=
  round_trip;;
  note (SelectAccess user_id agent_id);;
  gets (fun w =>
    find (fun r => (ua_user_id r =? user_id) && (ua_agent_id r =? agent_id))
         (user_agent_access w)).

(** [Database.check_agent_access] *)
Definition check_agent_access (user_id agent_id : string) : M bool :=
  get_connection;;
  try_finally
    (if is_free agent_id then ret true
     else
       access <- fetch_access user_id agent_id;;
       ret (match access with Some _ => true | None => false end))
    release_connection.

(** [Database.create_conversation] *)
Definition create_conversation (user_id agent_id : string) : M string :=
  let title := "New Conversation" in
  get_connection;;
  try_finally
    (n <- round_trip;;
     let id := gen_random_uuid E n in
     modify (fun w =>
       set_conversations
         (conversations w ++
          [{| c_id := id; c_user_id := user_id; c_agent_id := agent_id;
              c_title := title; c_created_at := clock w;
              c_updated_at := clock w |}]) w);;
     note (InsertConversation id user_id agent_id);;
     ret id)
    release_connection.

(** [UPDATE conversations SET updated_at = NOW() WHERE id = $1] *)
Definition touch (conversation_id : string) (now : nat)
    (c : conversation_row) : conversation_row :=
  if c_id c =? conversation_id then
    {| c_id := c_id c; c_user_id := c_user_id c; c_agent_id := c_agent_id c;
       c_title := c_title c; c_created_at := c_created_at c;
       c_updated_at := now |}
  else c.

(** [Database.save_message]: the INSERT and the UPDATE are two statements,
    each committed on its own. *)
Definition save_message (conversation_id role content : string) : M unit :=
  get_connection;;
  try_finally
    (round_trip;;
     modify (fun w =>
       set_messages
         (messages w ++
          [{| m_conversation_id := conversation_id; m_role := role;
              m_content := content; m_created_at := clock w |}]) w);;
     note (InsertMessage conversation_id role content);;
     round_trip;;
     modify (fun w =>
       set_conversations
         (map (touch conversation_id (clock w)) (conversations w)) w);;
     note (UpdateConversation conversation_id))
    release_connection.

(** [Database.log_activity] *)
Definition log_activity (user_id action : string)
    (metadata : list (string * json)) : M unit :=
  get_connection;;
  try_finally
    (round_trip;;
     modify (fun w =>
       set_activity_logs
         (activity_logs w ++ [activity_of user_id action metadata (clock w)])
         w);;
     note (InsertActivity user_id action))
    release_connection.

(** ** agents.py *)

(** [AgentManager.get_agent]: [self.agents.get(agent_id)] *)
Definition get_agent (agent_id : string) : option Agent :=
  match find (fun kv => fst kv =? agent_id) (agents E) with
  | Some kv => Some (snd kv)
  | None => None
  end.

(** ** chat.py *)

(** [for chunk in stream: if chunk.choices[0].delta.content is not None:
    yield content]; a chunk without choices raises [IndexError]. *)
Fixpoint deltas (chunks : list stream_chunk) (failure : option exn)
    : generator :=
  match chunks with
  | [] => ([], failure)
  | chunk :: rest =>
      match choices chunk with
      | [] => ([], Some (IndexError "list index out of range"))
      | content :: _ =>
          match content with
          | Some c => let (ys, r) := deltas rest failure in (c :: ys, r)
          | None => deltas rest failure
          end
      end
  end.

Definition model : string := "gpt-4o".

Definition unavailable : string :=
  "AI chat is not available. Please configure OpenAI API key.".

(** [f"Sorry, I encountered an error: {str(e)}"] *)
Definition apology (e : exn) : string :=
  "Sorry, I encountered an error: " ++ str e.

(** The [messages] argument of [chat.completions.create];
    [agent.get("system_prompt", "You are a helpful AI assistant.")]. *)
Definition chat_messages (agent : Agent) (user_message : string)
    : list chat_message :=
  let system_prompt :=
    match system_prompt agent with
    | Some p => p
    | None => "You are a helpful AI assistant."
    end in
  [ {| cm_role := "system"; cm_content := system_prompt |};
    {| cm_role := "user"; cm_content := user_message |} ].

(** [ChatManager.get_agent_response_stream]; [agent] is [None] when
    [get_agent] found no entry, and [agent.get] then raises. *)
Definition get_agent_response_stream (agent : option Agent)
    (user_message : string) : generator :=
  gen_try
    match openai_client E with
    | None => ([unavailable], None)
    | Some client =>
        match agent with
        | None =>
            ([], Some (AttributeError
                         "'NoneType' object has no attribute 'get'"))
        | Some agent =>
            match client model (chat_messages agent user_message) with
            | CreateRaises e => ([], Some e)
            | Streaming chunks failure => deltas chunks failure
            end
        end
    end
    (fun e => ([apology e], None)).

(** ** main.py: the websocket endpoint *)

(** [websocket.send_text(json.dumps(r))] *)
Definition send_text (r : record) : M unit :=
  modify (fun w => set_channel (channel w ++ [r]) w).

(** The body of [async for response_chunk in ...]: accumulate the chunk,
    then send it. *)
Fixpoint relay (conversation_id : string) (chunks : list string)
    (full_response : string) : M string :=
  match chunks with
  | [] => ret full_response
  | response_chunk :: rest =>
      let full_response := (full_response ++ response_chunk)%string in
      send_text (ChunkRec response_chunk conversation_id);;
      relay conversation_id rest full_response
  end.

(** The [async for] loop over a generator: its chunks are relayed, then the
    exception that ended it, if any, is raised in the loop. *)
Definition async_for (conversation_id : string) (g : generator) : M string :=
  full_response <- relay conversation_id (fst g) EmptyString;;
  match snd g with
  | None => ret full_response
  | Some e => raise e
  end.

(** The inner [try] block of the loop body and its [except] clause. *)
Definition stream_response (user_id agent_id message conversation_id : string)
    (agent : option Agent) : M unit :=
  try_except
    (note (StreamRequested agent_id message);;
     full_response <-
       async_for conversation_id (get_agent_response_stream agent message);;
     save_message conversation_id "assistant" full_response;;
     log_activity user_id "message_received"
       [("agent_id", JStr agent_id);
        ("conversation_id", JStr conversation_id);
        ("response_length", JNum (len full_response))];;
     send_text (CompleteRec conversation_id))
    (fun e =>
       send_text (ErrorRec ("Failed to get agent response: " ++ str e))).

(** The body of the [while True] loop, after [json.loads]; returning is
    [continue]. *)
Definition loop_body (md : message_data) : M unit :=
  if negb (all [user_id md; agent_id md; message md]) then
    send_text (ErrorRec "Missing required fields: user_id, agent_id, message")
  else
    match user_id md, agent_id md, message md with
    | Some user_id, Some agent_id, Some message =>
        log_activity user_id "message_sent"
          [("agent_id", JStr agent_id);
           ("conversation_id", json_of (conversation_id md));
           ("message_length", JNum (len message))];;
        has_access <- check_agent_access user_id agent_id;;
        if negb has_access then
          send_text (ErrorRec "Access denied to this agent. Payment required.")
        else
          conversation_id <-
            (if negb (truthy (conversation_id md)) then
               create_conversation user_id agent_id
             else
               ret (match conversation_id md with
                    | Some c => c
                    | None => EmptyString
                    end));;
          save_message conversation_id "user" message;;
          let agent := get_agent agent_id in
          stream_response user_id agent_id message conversation_id agent
    | _, _, _ => ret tt
    end.

(** Whether the endpoint goes on receiving after a request. *)
Inductive status := Listening | Disconnected.

(** One turn of the loop with the outer [except Exception] clause, which
    reports the error and leaves the loop. *)
Definition handle_request (md : message_data) (w : World) : status * World :=
  match loop_body md w with
  | (Ok _, w') => (Listening, w')
  | (Raise e, w') =>
      (Disconnected,
       snd (send_text (ErrorRec ("Connection error: " ++ str e)) w'))
  end.

(** [websocket_endpoint] on the requests the client sends before it
    disconnects. *)
Fixpoint websocket_endpoint (inbound : list message_data) (w : World) : World :=
  match inbound with
  | [] => w
  | md :: rest =>
      match handle_request md w with
      | (Listening, w') => websocket_endpoint rest w'
      | (Disconnected, w') => w'
      end
  end.

End Server.

(** The records a request added to the channel. *)
Definition sent_during (w w' : World) : list record :=
  skipn (length (channel w)) (channel w').

(** The rows a request added to [messages]. *)
Definition saved_during (w w' : World) : list message_row :=
  skipn (length (messages w)) (messages w').

(** A healthy deployment, used in the examples below. *)
Module Demo.

Definition quiet : Env :=
  {| outcome := fun _ => None;
     elapsed := fun _ => 1;
     gen_random_uuid := fun n => String (Ascii.ascii_of_nat (97 + n)) "-uuid";
     openai_client := None;
     agents := [] |}.

Definition with_client (c : string -> list chat_message -> completion)
    (e : Env) : Env :=
  {| outcome := outcome e; elapsed := elapsed e;
     gen_random_uuid := gen_random_uuid e;
     openai_client := Some c; agents := agents e |}.

Definition with_agents (l : list (string * Agent)) (e : Env) : Env :=
  {| outcome := outcome e; elapsed := elapsed e;
     gen_random_uuid := gen_random_uuid e;
     openai_client := openai_client e; agents := l |}.

Definition with_outcome (o : nat -> option exn) (e : Env) : Env :=
  {| outcome := o; elapsed := elapsed e;
     gen_random_uuid := gen_random_uuid e;
     openai_client := openai_client e; agents := agents e |}.

Definition catalog : list (string * Agent) :=
  [("creative-writer", {| agent_type := "free"; system_prompt := Some "You are a creative writing assistant." |});
   ("data-scientist", {| agent_type := "paid"; system_prompt := Some "You are an expert data scientist." |})].

Definition fresh : World :=
  mkWorld (Some "postgres://db") false 0 [] [] [] [] 100 0 [] [].

Definition unconfigured : World :=
  mkWorld None false 0 [] [] [] [] 100 0 [] [].

Definition hi (agent : string) : message_data :=
  {| user_id := Some "u1"; agent_id := Some agent; message := Some "hi";
     conversation_id := None |}.


(** A backend that emits ["Hel"], an empty delta and ["lo"], then ends. *)
Definition steady : string -> list chat_message -> completion :=
  fun _ _ => Streaming [ {| choices := [Some "Hel"] |};
                         {| choices := [None] |};
                         {| choices := [Some "lo"] |} ]
                       None.

(** A backend that cannot be reached. *)
Definition unreachable : string -> list chat_message -> completion :=
  fun _ _ => CreateRaises (Exn "APIConnectionError" "Connection error.").


Definition steady_env : Env := with_agents catalog (with_client steady quiet).

(** A request whose message is the empty string. *)
Definition empty_message : message_data :=
  {| user_id := Some "u1"; agent_id := Some "creative-writer";
     message := Some EmptyString; conversation_id := None |}.

(** A world in which another user holds the paid agent. *)
Definition other_holder : World :=
  mkWorld (Some "postgres://db") true 0
    [ {| ua_user_id := "u2"; ua_agent_id := "data-scientist";
         ua_payment_intent_id := Some "pi_1"; ua_granted_at := 7 |} ]
    [] [] [] 100 0 [] [].

End Demo.

(** * What a request can come to

    The outcomes of [handle_request], stated on the channel, the tables and
    the journal. The fields of the world that an outcome does not mention
    are not constrained by it. *)

Definition message_of (conversation_id role content : string) (ts : nat)
    : message_row :=
  {| m_conversation_id := conversation_id; m_role := role;
     m_content := content; m_created_at := ts |}.

Definition chunks_of (conversation_id : string) (frags : list string)
    : list record :=
  map (fun c => ChunkRec c conversation_id) frags.

(** The activity rows of the two [log_activity] calls of the loop body. *)
Definition sent_row (md : message_data) (user_id agent_id message : string)
    (ts : nat) : activity_row :=
  activity_of user_id "message_sent"
    [("agent_id", JStr agent_id);
     ("conversation_id", json_of (conversation_id md));
     ("message_length", JNum (len message))] ts.

Definition received_row (user_id agent_id conversation_id response : string)
    (ts : nat) : activity_row :=
  activity_of user_id "message_received"
    [("agent_id", JStr agent_id);
     ("conversation_id", JStr conversation_id);
     ("response_length", JNum (len response))] ts.

(** The entitlement decision of [check_agent_access], as a function of the
    table. *)
Definition entitled (user_id agent_id : string) (w : World) : bool :=
  is_free agent_id ||
  match find (fun r => (ua_user_id r =? user_id) && (ua_agent_id r =? agent_id))
             (user_agent_access w) with
  | Some _ => true
  | None => false
  end.

(** Journal entries: the INSERT of a user message; the steps of a reply
    (calling the generator, the INSERT of an assistant message). *)
Definition user_insert (ev : event) : bool :=
  match ev with
  | InsertMessage _ role _ => role =? "user"
  | _ => false
  end.

Definition reply_step (ev : event) : bool :=
  match ev with
  | StreamRequested _ _ => true
  | InsertMessage _ role _ => role =? "assistant"
  | _ => false
  end.

(** Every reply step of [evs] comes after a user INSERT ([seen]: one came
    before [evs]). *)
Fixpoint user_first (seen : bool) (evs : list event) : bool :=
  match evs with
  | [] => true
  | ev :: rest =>
      (negb (reply_step ev) || seen) && user_first (seen || user_insert ev) rest
  end.

Section Outcomes.

Variable E : Env.

(** [e] is what the database layer raised: it is not configured, or a round
    trip failed. *)
Definition storage_fault (w : World) (e : exn) : Prop :=
  (truthy (database_url w) = false /\ e = ValueError "Database not configured")
  \/ exists n, outcome E n = Some e.

(** What no method of [Database] changes, and the clock only advances. *)
Record db_step (w w' : World) : Prop := {
  step_url : database_url w' = database_url w;
  step_access : user_agent_access w' = user_agent_access w;
  step_channel : channel w' = channel w;
  step_clock : clock w <= clock w'
}.

(** The outcomes of the inner [try] block, entered in [w]. *)
Inductive reply (user_id agent_id message cid : string)
    (agent : option Agent) (w w' : World) : Prop :=
| Completed (ts ts' : nat) :
    let frags := fst (get_agent_response_stream E agent message) in
    channel w' = channel w ++ chunks_of cid frags ++ [CompleteRec cid] ->
    messages w' = messages w ++ [message_of cid "assistant" (join frags) ts] ->
    clock w <= ts ->
    activity_logs w' =
      activity_logs w ++
      [received_row user_id agent_id cid (join frags) ts'] ->
    journal w' =
      journal w ++
      [StreamRequested agent_id message;
       InsertMessage cid "assistant" (join frags);
       UpdateConversation cid;
       InsertActivity user_id "message_received"] ->
    reply user_id agent_id message cid agent w w'
| Aborted (e : exn) (saved : list message_row) (evs : list event) :
    let frags := fst (get_agent_response_stream E agent message) in
    storage_fault w e ->
    channel w' =
      channel w ++ chunks_of cid frags ++
      [ErrorRec ("Failed to get agent response: " ++ str e)] ->
    messages w' = messages w ++ saved ->
    (saved = [] \/
     exists ts, clock w <= ts /\
                saved = [message_of cid "assistant" (join frags) ts]) ->
    activity_logs w' = activity_logs w ->
    journal w' = journal w ++ StreamRequested agent_id message :: evs ->
    reply user_id agent_id message cid agent w w'.

(** The outcomes of one turn of the receive loop, entered in [w]. *)
Inductive served_as (md : message_data) (w : World)
    : status -> World -> Prop :=
| Rejected :
    all [user_id md; agent_id md; message md] = false ->
    served_as md w Listening
      (snd (send_text
              (ErrorRec "Missing required fields: user_id, agent_id, message")
              w))
| Unchecked u a m e logged evs w' :
    (* [log_activity] or [check_agent_access] raised *)
    user_id md = Some u -> agent_id md = Some a -> message md = Some m ->
    storage_fault w e ->
    channel w' = channel w ++ [ErrorRec ("Connection error: " ++ str e)] ->
    conversations w' = conversations w ->
    messages w' = messages w ->
    activity_logs w' = activity_logs w ++ logged ->
    (logged = [] \/ exists ts, logged = [sent_row md u a m ts]) ->
    journal w' = journal w ++ evs ->
    forallb (fun ev => negb (reply_step ev)) evs = true ->
    served_as md w Disconnected w'
| Denied u a m ts w' :
    user_id md = Some u -> agent_id md = Some a -> message md = Some m ->
    entitled u a w = false ->
    channel w' =
      channel w ++ [ErrorRec "Access denied to this agent. Payment required."] ->
    conversations w' = conversations w ->
    messages w' = messages w ->
    activity_logs w' = activity_logs w ++ [sent_row md u a m ts] ->
    journal w' =
      journal w ++ [InsertActivity u "message_sent"; SelectAccess u a] ->
    served_as md w Listening w'
| Unsaved u a m e saved evs w' :
    (* [create_conversation] or the first [save_message] raised *)
    user_id md = Some u -> agent_id md = Some a -> message md = Some m ->
    entitled u a w = true ->
    storage_fault w e ->
    channel w' = channel w ++ [ErrorRec ("Connection error: " ++ str e)] ->
    messages w' = messages w ++ saved ->
    (saved = [] \/ exists cid ts, saved = [message_of cid "user" m ts]) ->
    (exists ts, activity_logs w' = activity_logs w ++ [sent_row md u a m ts]) ->
    journal w' = journal w ++ evs ->
    forallb (fun ev => negb (reply_step ev)) evs = true ->
    served_as md w Disconnected w'
| Answered u a m cid ts evs w1 w' :
    user_id md = Some u -> agent_id md = Some a -> message md = Some m ->
    entitled u a w = true ->
    (truthy (conversation_id md) = true -> conversation_id md = Some cid) ->
    database_url w1 = database_url w ->
    channel w1 = channel w ->
    messages w1 = messages w ++ [message_of cid "user" m ts] ->
    ts <= clock w1 ->
    (exists ts', activity_logs w1 = activity_logs w ++ [sent_row md u a m ts']) ->
    journal w1 = journal w ++ evs ->
    user_first false evs = true ->
    existsb user_insert evs = true ->
    reply u a m cid (get_agent E a) w1 w' ->
    served_as md w Listening w'.

(** The database is configured and no round trip fails. *)
Definition healthy (w : World) : Prop :=
  truthy (database_url w) = true /\ forall n, outcome E n = None.

(** The response generator cannot answer [user_message] for [agent_id]:
    there is no client, or the call of the backend raises. [text] is what
    [get_agent_response_stream] yields then. *)
Inductive backend_down (agent_id user_message : string) : string -> Prop :=
| Unconfigured :
    openai_client E = None ->
    backend_down agent_id user_message unavailable
| Unreachable client agent e :
    openai_client E = Some client ->
    get_agent E agent_id = Some agent ->
    client model (chat_messages agent user_message) = CreateRaises e ->
    backend_down agent_id user_message (apology e).

End Outcomes.

(** * The receive loop, from the received text

    The endpoint decodes the received text with [json.loads] and reads
    four keys with [message_data.get]; after validation it evaluates
    [len(message)] as an argument of the first [log_activity]. All of this
    happens inside the outer [try]. A [frame] is a received text as these
    steps see it. The values that asyncpg has to bind,
    [user_id], [agent_id] and [conversation_id], are strings or null; the
    message is a string or null, or a JSON number or boolean, which has no
    length. *)

(** A JSON number or boolean, as far as the loop looks at it. *)
Inductive scalar :=
| Boolean (b : bool)
| Integer (zero : bool)
| Float (zero : bool).

(** [bool(v)] *)
Definition truth (v : scalar) : bool :=
  match v with
  | Boolean b => b
  | Integer zero => negb zero
  | Float zero => negb zero
  end.

(** [type(v).__name__] *)
Definition type_name (v : scalar) : string :=
  match v with
  | Boolean _ => "bool"
  | Integer _ => "int"
  | Float _ => "float"
  end.

Inductive message_value :=
| Text (text : option string)
| Scalar (v : scalar).

(** A received text: [json.loads] raises [e] on it; or it decodes to a
    value that is not an object, of Python type [python_type] (["list"],
    ["str"], ["int"], ["float"], ["bool"] or ["NoneType"]); or it decodes
    to an object, given by what [message_data.get] returns for the four
    keys. *)
Inductive frame :=
| Undecodable (e : exn)
| NotAnObject (python_type : string)
| Object (user_id agent_id : option string) (message : message_value)
    (conversation_id : option string).

(** The frame of a record whose values are strings or null. *)
Definition parsed (md : message_data) : frame :=
  Object (user_id md) (agent_id md) (Text (message md)) (conversation_id md).

(** The exception that a frame makes the loop raise before it calls the
    database layer, if any: the text is not JSON, the JSON is not an
    object, or the request passes validation with a message that has no
    length. *)
Definition read_error (f : frame) : option exn :=
  match f with
  | Undecodable e => Some e
  | NotAnObject python_type =>
      Some (AttributeError
              ("'" ++ python_type ++ "' object has no attribute 'get'"))
  | Object user_id agent_id (Scalar v) _ =>
      if truthy user_id && truthy agent_id && truth v then
        Some (TypeError ("object of type '" ++ type_name v ++ "' has no len()"))
      else None
  | Object _ _ (Text _) _ => None
  end.

Section Frames.

Variable E : Env.

(** The body of the [while True] loop, from [json.loads(data)] on. *)
Definition loop_turn (f : frame) : M unit :=
  match f with
  | Undecodable e =>
      (* message_data = json.loads(data) *)
      raise e
  | NotAnObject python_type =>
      (* message_data.get("user_id") *)
      raise (AttributeError
               ("'" ++ python_type ++ "' object has no attribute 'get'"))
  | Object user_id agent_id (Text message) conversation_id =>
      loop_body E {| user_id := user_id; agent_id := agent_id;
                     message := message;
                     conversation_id := conversation_id |}
  | Object user_id agent_id (Scalar v) conversation_id =>
      if negb (truthy user_id && truthy agent_id && truth v) then
        send_text
          (ErrorRec "Missing required fields: user_id, agent_id, message")
      else
        (* len(message), evaluated before log_activity is called *)
        raise (TypeError
                 ("object of type '" ++ type_name v ++ "' has no len()"))
  end.

(** One turn of the loop with the outer [except Exception] clause. *)
Definition handle_frame (f : frame) (w : World) : status * World :=
  match loop_turn f w with
  | (Ok _, w') => (Listening, w')
  | (Raise e, w') =>
      (Disconnected,
       snd (send_text (ErrorRec ("Connection error: " ++ str e)) w'))
  end.

(** [websocket_endpoint] on the texts the client sends before it
    disconnects. *)
Fixpoint receive_loop (frames : list frame) (w : World) : World :=
  match frames with
  | [] => w
  | f :: rest =>
      match handle_frame f w with
      | (Listening, w') => receive_loop rest w'
      | (Disconnected, w') => w'
      end
  end.

End Frames.

(** * The rest of the database layer, the blocking reply, payments

    The methods below are the ones the chat turn does not call. They run
    in the same [World]; the journal keeps recording the statements of the
    chat turn only. *)

Definition set_user_agent_access (rows : list access_row) (w : World) : World :=
  mkWorld (database_url w) (pool w) (checked_out w) rows
    (conversations w) (messages w) (activity_logs w) (clock w) (served w)
    (channel w) (journal w).

(** The conflict target of [user_agent_access]: [UNIQUE(user_id, agent_id)]. *)
Definition same_grant (user_id agent_id : string) (r : access_row) : bool :=
  (ua_user_id r =? user_id) && (ua_agent_id r =? agent_id).

(** [INSERT INTO user_agent_access ... ON CONFLICT (user_id, agent_id)
    DO UPDATE SET payment_intent_id = $3, granted_at = NOW()] *)
Definition upsert_access (user_id agent_id : string)
    (payment_intent_id : option string) (now : nat)
    (rows : list access_row) : list access_row :=
  if existsb (same_grant user_id agent_id) rows then
    map (fun r =>
           if same_grant user_id agent_id r then
             {| ua_user_id := ua_user_id r; ua_agent_id := ua_agent_id r;
                ua_payment_intent_id := payment_intent_id;
                ua_granted_at := now |}
           else r) rows
  else
    rows ++ [{| ua_user_id := user_id; ua_agent_id := agent_id;
                ua_payment_intent_id := payment_intent_id;
                ua_granted_at := now |}].

(** [ORDER BY key ASC]: rows with equal keys keep the order they are met
    in. *)
Fixpoint insert_by {A} (key : A -> nat) (x : A) (sorted : list A) : list A :=
  match sorted with
  | [] => [x]
  | y :: rest =>
      if Nat.ltb (key x) (key y) then x :: y :: rest
      else y :: insert_by key x rest
  end.

Definition order_by {A} (key : A -> nat) (rows : list A) : list A :=
  fold_left (fun sorted x => insert_by key x sorted) rows [].

(** The row dicts the SELECTs below return. *)
Record message_view := {
  mv_role : string;
  mv_content : string;
  mv_created_at : nat
}.

Record paid_agent_view := {
  pa_agent_id : string;
  pa_granted_at : nat
}.

(** The dict [get_user_dashboard_data] returns. *)
Record dashboard := {
  total_messages : nat;
  agent_interactions : list (string * nat);
  last_activity : option nat;
  accessible_paid_agents : list paid_agent_view
}.

(** [FROM messages m JOIN conversations c ON m.conversation_id = c.id
    WHERE c.user_id = $1 AND m.role = 'user']: the agent of each joined
    row. *)
Definition user_turns (user_id : string) (w : World) : list string :=
  flat_map
    (fun m =>
       map c_agent_id
         (filter (fun c => (c_id c =? m_conversation_id m) &&
                           (c_user_id c =? user_id) &&
                           (m_role m =? "user"))
                 (conversations w)))
    (messages w).

(** [SELECT created_at ... ORDER BY created_at DESC LIMIT 1]: the greatest
    key, if there is a row. *)
Fixpoint latest (keys : list nat) : option nat :=
  match keys with
  | [] => None
  | k :: rest =>
      match latest rest with
      | None => Some k
      | Some k' => Some (Nat.max k k')
      end
  end.

(** What [stripe.PaymentIntent.retrieve] returns: [intent.status] and the
    two keys of [intent.metadata] that [verify_payment] reads. *)
Record payment_intent := {
  pi_status : string;
  pi_user_id : option string;
  pi_agent_id : option string
}.

(** What the blocking [chat.completions.create] does: it raises, or it
    returns a response whose [choices[i].message.content] are given. *)
Inductive blocking_completion :=
| ReplyRaises (e : exn)
| Replied (contents : list (option string)).

(** [conversation_history[-10:]] *)
Definition last_ten {A} (conversation_history : list A) : list A :=
  skipn (length conversation_history - 10) conversation_history.

Section Collaborators.

Variable E : Env.

(** [Database.grant_agent_access] *)
Definition grant_agent_access (user_id agent_id : string)
    (payment_intent_id : option string) : M unit :=
  get_connection E;;
  try_finally
    (round_trip E;;
     modify (fun w =>
       set_user_agent_access
         (upsert_access user_id agent_id payment_intent_id (clock w)
            (user_agent_access w)) w))
    release_connection.

(** [Database.get_conversation_messages] *)
Definition get_conversation_messages (conversation_id : string)
    : M (list message_view) :=
  get_connection E;;
  try_finally
    (round_trip E;;
     gets (fun w =>
       map (fun m => {| mv_role := m_role m; mv_content := m_content m;
                        mv_created_at := m_created_at m |})
           (order_by m_created_at
              (filter (fun m => m_conversation_id m =? conversation_id)
                      (messages w)))))
    release_connection.

(** [Database.get_user_accessible_agents] *)
Definition get_user_accessible_agents (user_id : string) : M (list string) :=
  get_connection E;;
  try_finally
    (round_trip E;;
     paid_agents <-
       gets (fun w => filter (fun r => ua_user_id r =? user_id)
                             (user_agent_access w));;
     ret (free_agents ++ map ua_agent_id paid_agents))
    release_connection.

(** [Database.get_user_dashboard_data]: four statements on one
    connection. The per-agent counts are the groups of
    [GROUP BY c.agent_id]. *)
Definition get_user_dashboard_data (user_id : string) : M dashboard :=
  get_connection E;;
  try_finally
    (round_trip E;;
     total <- gets (fun w => length (user_turns user_id w));;
     round_trip E;;
     agent_stats <-
       gets (fun w =>
         let turns := user_turns user_id w in
         map (fun agent_id => (agent_id, count_occ string_dec turns agent_id))
             (nodup string_dec turns));;
     round_trip E;;
     last <-
       gets (fun w =>
         latest (map al_created_at
                   (filter (fun r => al_user_id r =? user_id)
                           (activity_logs w))));;
     round_trip E;;
     paid_agents <-
       gets (fun w => filter (fun r => ua_user_id r =? user_id)
                             (user_agent_access w));;
     ret {| total_messages := total;
            agent_interactions := agent_stats;
            last_activity := last;
            accessible_paid_agents :=
              map (fun r => {| pa_agent_id := ua_agent_id r;
                               pa_granted_at := ua_granted_at r |})
                  paid_agents |})
    release_connection.

(** ** chat.py: the blocking reply *)

Section Blocking.

(** The blocking call of the client of [openai_client E]. *)
Variable create_reply : string -> list chat_message -> blocking_completion.

(** The [messages] list [get_agent_response] builds. *)
Definition reply_messages (agent : Agent) (user_message : string)
    (conversation_history : list chat_message) : list chat_message :=
  let system_prompt :=
    match system_prompt agent with
    | Some p => p
    | None => "You are a helpful AI assistant."
    end in
  [ {| cm_role := "system"; cm_content := system_prompt |} ] ++
  map (fun msg => {| cm_role := cm_role msg; cm_content := cm_content msg |})
      (last_ten conversation_history) ++
  [ {| cm_role := "user"; cm_content := user_message |} ].

(** [ChatManager.get_agent_response]; an absent or empty history is the
    empty list. *)
Definition get_agent_response (agent : option Agent) (user_message : string)
    (conversation_history : list chat_message) : string :=
  let body : result string :=
    match openai_client E with
    | None => Ok unavailable
    | Some _ =>
        match agent with
        | None =>
            Raise (AttributeError "'NoneType' object has no attribute 'get'")
        | Some agent =>
            match create_reply model
                    (reply_messages agent user_message conversation_history)
            with
            | ReplyRaises e => Raise e
            | Replied [] => Raise (IndexError "list index out of range")
            | Replied (content :: _) =>
                Ok (if truthy content then
                      match content with
                      | Some c => c
                      | None => EmptyString
                      end
                    else "No response generated")
            end
        end
    end in
  match body with
  | Ok text => text
  | Raise e => apology e
  end.

End Blocking.

(** ** agents.py: the catalog *)

(** [AgentManager.get_free_agents], [get_paid_agents]: the ids of the
    entries, in catalog order. *)
Definition get_free_agents : list string :=
  map fst (filter (fun kv => agent_type (snd kv) =? "free") (agents E)).

Definition get_paid_agents : list string :=
  map fst (filter (fun kv => agent_type (snd kv) =? "paid") (agents E)).

(** [AgentManager.is_agent_free]: the truth value of
    [agent and agent["type"] == "free"] ([None] for an unknown id). *)
Definition is_agent_free (agent_id : string) : bool :=
  match get_agent E agent_id with
  | Some agent => agent_type agent =? "free"
  | None => false
  end.

(** ** payments.py *)

Section Payments.

(** [stripe.PaymentIntent.retrieve] *)
Variable retrieve : string -> result payment_intent.

(** [PaymentManager.verify_payment] *)
Definition verify_payment (user_id agent_id payment_intent_id : string)
    : M bool :=
  try_except
    (match retrieve payment_intent_id with
     | Raise e => raise e
     | Ok intent =>
         if pi_status intent =? "succeeded" then
           match pi_user_id intent, pi_agent_id intent with
           | Some u, Some a =>
               if (u =? user_id) && (a =? agent_id) then
                 grant_agent_access user_id agent_id (Some payment_intent_id);;
                 ret true
               else ret false
           | _, _ => ret false
           end
         else ret false
     end)
    (fun _ => ret false).

End Payments.

End Collaborators.

(** The columns of a conversation that no statement of the code updates. *)
Definition identity_of (c : conversation_row)
    : string * string * string * string * nat :=
  (c_id c, c_user_id c, c_agent_id c, c_title c, c_created_at c).

(** The catalog [AgentManager.__init__] builds, with the two keys the model
    keeps. *)
Definition initial_agents : list (string * Agent) :=
  [ ("creative-writer",
     {| agent_type := "free";
        system_prompt := Some "You are a creative writing assistant with expertise in storytelling, poetry, creative content, and literary techniques. Help users with creative projects, provide writing inspiration, and offer constructive feedback on their creative work. Be encouraging, imaginative, and provide detailed, creative responses." |});
    ("code-helper",
     {| agent_type := "free";
        system_prompt := Some "You are an expert programming assistant with deep knowledge of multiple programming languages, frameworks, and development best practices. Help users debug code, explain programming concepts, review code quality, and provide efficient solutions. Always include code examples and explanations." |});
    ("research-assistant",
     {| agent_type := "free";
        system_prompt := Some "You are a research assistant with expertise in information gathering, analysis, and synthesis. Help users with research projects, fact-checking, data analysis, and providing comprehensive overviews of complex topics. Always cite your reasoning and acknowledge limitations of your knowledge." |});
    ("business-advisor",
     {| agent_type := "paid";
        system_prompt := Some "You are a senior business consultant with extensive experience in strategy, finance, marketing, and operations. Provide strategic business advice, help with business planning, analyze market opportunities, and offer practical solutions for business challenges. Use business frameworks and data-driven insights in your responses." |});
    ("data-scientist",
     {| agent_type := "paid";
        system_prompt := Some "You are an expert data scientist with deep knowledge in statistics, machine learning, data analysis, and data visualization. Help users with data problems, explain complex analytical concepts, suggest appropriate methodologies, and provide insights from data. Include practical code examples and visualization suggestions when relevant." |}) ].

(** What one chunk of a stream contributes: the content of its first
    choice, unless it is null. *)
Definition first_content (c : stream_chunk) : list string :=
  match choices c with
  | Some s :: _ => [s]
  | _ => []
  end.

(** What a chat session leaves alone and what it can only extend. *)
Record steady (w w' : World) : Prop := {
  same_url : database_url w' = database_url w;
  same_access : user_agent_access w' = user_agent_access w;
  same_checked_out : checked_out w' = checked_out w;
  later_clock : clock w <= clock w';
  more_served : served w <= served w';
  pool_stays : pool w = true -> pool w' = true;
  more_messages : exists added, messages w' = messages w ++ added;
  more_activity : exists added, activity_logs w' = activity_logs w ++ added;
  more_sent : exists added, channel w' = channel w ++ added;
  more_journal : exists added, journal w' = journal w ++ added;
  more_conversations :
    exists added,
      map identity_of (conversations w') =
      map identity_of (conversations w) ++ added
}.

(** [c] relates the world it starts in to the world it leaves by [R],
    whether it returns or raises. *)
Definition keeps {A} (R : World -> World -> Prop) (c : M A) : Prop :=
  forall w, R w (snd (c w)).

(** Sample inputs for the examples of the second part. *)
Module Sample.

(** An answered request, a denied one, and one whose message is [false]. *)
Definition frames : list frame :=
  [parsed (Demo.hi "creative-writer"); parsed (Demo.hi "data-scientist");
   Object (Some "u1") (Some "creative-writer") (Scalar (Boolean false)) None].

(** A request whose message is the number 7. *)
Definition seven : frame :=
  Object (Some "u1") (Some "creative-writer") (Scalar (Integer false)) None.

(** The world after one answered request. *)
Definition after_chat : World :=
  snd (handle_request Demo.steady_env (Demo.hi "creative-writer") Demo.fresh).

(** A backend whose second chunk has no choices. *)
Definition broken : string -> list chat_message -> completion :=
  fun _ _ => Streaming [ {| choices := [Some "Hel"] |};
                         {| choices := [] |};
                         {| choices := [Some "lo"] |} ]
                       None.

Definition broken_env : Env :=
  Demo.with_agents Demo.catalog (Demo.with_client broken Demo.quiet).

Definition initial_env : Env := Demo.with_agents initial_agents Demo.quiet.

(** A catalog with an agent added through the admin endpoint, of type
    "free" and without a ["system_prompt"] key. *)
Definition poet : Agent := {| agent_type := "free"; system_prompt := None |}.

Definition custom_env : Env :=
  Demo.with_agents (initial_agents ++ [("poet", poet)]) Demo.quiet.

(** Stripe knows one intent, paid by "u1" for "data-scientist". *)
Definition stripe (payment_intent_id : string) : result payment_intent :=
  if payment_intent_id =? "pi_1" then
    Ok {| pi_status := "succeeded"; pi_user_id := Some "u1";
          pi_agent_id := Some "data-scientist" |}
  else Raise (Exn "InvalidRequestError" "No such payment_intent").

End Sample.

(** * Facts *)

(** ** Strings and lists *)

Lemma append_empty_r (s : string) : (s ++ EmptyString)%string = s.
Proof. induction s as [|c s IH]; cbn; [reflexivity | now rewrite IH]. Qed.

Lemma append_assoc (s t u : string) :
  ((s ++ t) ++ u)%string = (s ++ (t ++ u))%string.
Proof. induction s as [|c s IH]; cbn; [reflexivity | now rewrite IH]. Qed.


Lemma chunk_contents_app (rs rs' : list record) :
  chunk_contents (rs ++ rs') = chunk_contents rs ++ chunk_contents rs'.
Proof.
  induction rs as [|[c cid|cid|msg] rs IH]; cbn; [reflexivity | | assumption ..].
  now rewrite IH.
Qed.

Lemma chunk_contents_chunks (cid : string) (frags : list string) :
  chunk_contents (map (fun c => ChunkRec c cid) frags) = frags.
Proof. induction frags as [|c frags IH]; cbn; [reflexivity | now rewrite IH]. Qed.

Lemma chunks_are_chunks (cid : string) (frags : list string) :
  forallb is_chunk (map (fun c => ChunkRec c cid) frags) = true.
Proof. induction frags as [|c frags IH]; cbn; auto. Qed.

Lemma skipn_past {A} (l l' : list A) : skipn (length l) (l ++ l') = l'.
Proof. induction l as [|x l IH]; cbn; auto. Qed.

(** The three error texts of the endpoint that carry a cause differ from
    the denial text. *)
Lemma connection_error_not_denial (cause : string) :
  ErrorRec ("Connection error: " ++ cause) <>
  ErrorRec "Access denied to this agent. Payment required.".
Proof. cbn. discriminate. Qed.

Lemma generation_error_not_denial (cause : string) :
  ErrorRec ("Failed to get agent response: " ++ cause) <>
  ErrorRec "Access denied to this agent. Payment required.".
Proof. cbn. discriminate. Qed.

Lemma chunks_have_no_terminal (cid : string) (frags : list string) (r : record) :
  In r (chunks_of cid frags) -> is_chunk r = true.
Proof.
  unfold chunks_of. intros (c & <- & _)%in_map_iff. reflexivity.
Qed.

(** ** Order in the journal *)

Lemma user_first_seen (evs : list event) : user_first true evs = true.
Proof.
  induction evs as [|ev evs IH]; cbn; [reflexivity|].
  now rewrite orb_true_r, IH.
Qed.

Lemma user_first_app (seen : bool) (evs evs' : list event) :
  user_first seen (evs ++ evs') =
  user_first seen evs && user_first (seen || existsb user_insert evs) evs'.
Proof.
  revert seen. induction evs as [|ev evs IH]; intros seen; cbn.
  - now rewrite orb_false_r.
  - now rewrite IH, andb_assoc, orb_assoc.
Qed.

Lemma quiet_user_first (seen : bool) (evs : list event) :
  forallb (fun ev => negb (reply_step ev)) evs = true ->
  user_first seen evs = true.
Proof.
  revert seen. induction evs as [|ev evs IH]; intros seen; cbn;
    [reflexivity|].
  intros [Hev Hevs]%andb_prop. now rewrite Hev, IH.
Qed.

(** What [user_first] checks: a reply step is preceded by a user INSERT. *)
Lemma user_first_sound (seen : bool) (evs pre post : list event) (ev : event) :
  user_first seen evs = true ->
  evs = pre ++ ev :: post ->
  reply_step ev = true ->
  seen = true \/ existsb user_insert pre = true.
Proof.
  intros Hfirst -> Hev. rewrite user_first_app in Hfirst.
  apply andb_prop in Hfirst as [_ Hfirst]. cbn in Hfirst.
  rewrite Hev in Hfirst. cbn in Hfirst.
  apply andb_prop in Hfirst as [Hseen _].
  now apply orb_prop in Hseen.
Qed.

(** ** The relay loop and the generator *)

Section Facts.

Variable E : Env.

Lemma relay_spec cid chunks acc w :
  relay cid chunks acc w =
  (Ok (acc ++ join chunks)%string,
   set_channel (channel w ++ map (fun c => ChunkRec c cid) chunks) w).
Proof.
  revert acc w. induction chunks as [|c rest IH]; intros acc w.
  - cbn. rewrite append_empty_r, app_nil_r. destruct w; reflexivity.
  - cbn. unfold bind. cbn. rewrite IH. cbn. rewrite append_assoc.
    unfold set_channel. cbn. rewrite <- app_assoc. reflexivity.
Qed.

(** [get_agent_response_stream] catches every exception of its body: the
    generator always ends normally. *)
Lemma stream_never_raises agent user_message :
  snd (get_agent_response_stream E agent user_message) = None.
Proof.
  unfold get_agent_response_stream, gen_try.
  match goal with
  | |- snd (match ?b with _ => _ end) = _ => destruct b as [ys [e|]]
  end; reflexivity.
Qed.

Lemma async_for_stream cid agent user_message w :
  let frags := fst (get_agent_response_stream E agent user_message) in
  async_for cid (get_agent_response_stream E agent user_message) w =
  (Ok (join frags),
   set_channel (channel w ++ map (fun c => ChunkRec c cid) frags) w).
Proof.
  cbv zeta. unfold async_for, bind.
  rewrite relay_spec, stream_never_raises. reflexivity.
Qed.

(** Had the generator raised after some chunks, the loop would have relayed
    them and raised in turn. *)
Lemma async_for_raising cid ys e w :
  async_for cid (ys, Some e) w =
  (Raise e, set_channel (channel w ++ map (fun c => ChunkRec c cid) ys) w).
Proof. unfold async_for, bind. rewrite relay_spec. reflexivity. Qed.

End Facts.

(** ** Running the model by cases *)

Arguments is_free : simpl never.
Arguments get_agent_response_stream : simpl never.
Arguments stream_response : simpl never.
Arguments String.eqb : simpl never.
Arguments append : simpl never.
Arguments String.length : simpl never.
Arguments len : simpl never.
Arguments join : simpl never.
Arguments truthy : simpl never.
Arguments str : simpl never.
Arguments ValueError : simpl never.
Arguments log_activity : simpl never.
Arguments check_agent_access : simpl never.
Arguments create_conversation : simpl never.
Arguments save_message : simpl never.
Arguments async_for : simpl never.
Arguments entitled : simpl never.

(** One step of a database method run on a symbolic world: reuse what is
    known of a test, or split on it. *)
Ltac split_step E :=
  match goal with
  | H : ?x = _ |- context [match ?x with _ => _ end] => rewrite H
  | H : ?x = _ |- context [if ?x then _ else _] => rewrite H
  | H : ?x = _ |- context [negb ?x] => rewrite H
  | |- context [match outcome E ?n with _ => _ end] =>
      destruct (outcome E n) eqn:?
  | |- context [negb (pool ?w)] => destruct (pool w) eqn:?
  | |- context [negb (truthy ?v)] => destruct (truthy v) eqn:?
  | |- context [if is_free ?a then _ else _] => destruct (is_free a) eqn:?
  | |- context [match find ?f ?l with _ => _ end] => destruct (find f l) eqn:?
  end.

Ltac run_db :=
  unfold log_activity, check_agent_access, create_conversation, save_message,
    fetch_access, get_connection, release_connection, try_finally, try_except,
    bind, note, send_text, modify, gets, ret, raise, round_trip.

(** Closing one case of a method: a table is the old one, possibly with
    rows appended; a fault is the one met on the way. *)
Ltac grown :=
  cbn; first [ reflexivity | symmetry; apply app_nil_r ].

Ltac faulty :=
  first [ left; split; [assumption | reflexivity]
        | right; eexists; eassumption ].

Section Cases.

Variable E : Env.

Lemma log_activity_cases u action metadata w :
  let r := fst (log_activity E u action metadata w) in
  let w' := snd (log_activity E u action metadata w) in
  db_step w w' /\
  conversations w' = conversations w /\ messages w' = messages w /\
  match r with
  | Ok _ =>
      exists ts,
        activity_logs w' =
          activity_logs w ++ [activity_of u action metadata ts] /\
        journal w' = journal w ++ [InsertActivity u action]
  | Raise e =>
      storage_fault E w e /\
      activity_logs w' = activity_logs w /\ journal w' = journal w
  end.
Proof.
  cbv zeta. run_db. cbn.
  repeat (split_step E; cbn).
  all: split; [constructor; cbn; first [reflexivity | lia] |].
  all: do 2 (split; [reflexivity|]).
  all: first [ solve [split; [faulty | split; reflexivity]]
             | solve [eexists; split; reflexivity] ].
Qed.

Lemma check_agent_access_cases u a w :
  let r := fst (check_agent_access E u a w) in
  let w' := snd (check_agent_access E u a w) in
  db_step w w' /\
  conversations w' = conversations w /\ messages w' = messages w /\
  activity_logs w' = activity_logs w /\
  match r with
  | Ok b =>
      b = entitled u a w /\
      journal w' = journal w ++ (if is_free a then [] else [SelectAccess u a])
  | Raise e => storage_fault E w e /\ journal w' = journal w
  end.
Proof.
  cbv zeta. unfold entitled. run_db. cbn.
  repeat (split_step E; cbn).
  all: split; [constructor; cbn; first [reflexivity | lia] |].
  all: do 3 (split; [reflexivity|]).
  all: first [ solve [split; [faulty | reflexivity]]
             | solve [split; [reflexivity | grown]] ].
Qed.

Lemma create_conversation_cases u a w :
  let r := fst (create_conversation E u a w) in
  let w' := snd (create_conversation E u a w) in
  db_step w w' /\
  messages w' = messages w /\ activity_logs w' = activity_logs w /\
  match r with
  | Ok cid =>
      exists row,
        c_id row = cid /\ c_user_id row = u /\ c_agent_id row = a /\
        conversations w' = conversations w ++ [row] /\
        journal w' = journal w ++ [InsertConversation cid u a]
  | Raise e =>
      storage_fault E w e /\
      conversations w' = conversations w /\ journal w' = journal w
  end.
Proof.
  cbv zeta. run_db. cbn.
  repeat (split_step E; cbn).
  all: split; [constructor; cbn; first [reflexivity | lia] |].
  all: do 2 (split; [reflexivity|]).
  all: first [ solve [split; [faulty | split; reflexivity]]
             | solve [eexists; repeat split; reflexivity] ].
Qed.

Lemma save_message_cases cid role content w :
  let r := fst (save_message E cid role content w) in
  let w' := snd (save_message E cid role content w) in
  db_step w w' /\ activity_logs w' = activity_logs w /\
  match r with
  | Ok _ =>
      exists ts, clock w <= ts <= clock w' /\
        messages w' = messages w ++ [message_of cid role content ts] /\
        journal w' =
          journal w ++ [InsertMessage cid role content; UpdateConversation cid]
  | Raise e =>
      storage_fault E w e /\
      ((messages w' = messages w /\ journal w' = journal w) \/
       exists ts, clock w <= ts <= clock w' /\
         messages w' = messages w ++ [message_of cid role content ts] /\
         journal w' = journal w ++ [InsertMessage cid role content])
  end.
Proof.
  cbv zeta. run_db. cbn.
  repeat (split_step E; cbn).
  all: rewrite <- ?app_assoc.
  all: (split; [constructor; cbn; first [reflexivity | lia] |]).
  all: (split; [reflexivity|]).
  all: try (split; [faulty|]).
  all: try solve [left; split; reflexivity].
  all: try solve [right; eexists; split; [|split; reflexivity]; cbn; lia].
  all: try solve [eexists; split; [|split; reflexivity]; cbn; lia].
Qed.

Lemma storage_fault_url w w' e :
  database_url w' = database_url w ->
  storage_fault E w' e -> storage_fault E w e.
Proof. unfold storage_fault. intros ->. auto. Qed.

Lemma entitled_same u a w w' :
  user_agent_access w' = user_agent_access w ->
  entitled u a w' = entitled u a w.
Proof. unfold entitled. intros ->. reflexivity. Qed.

(** Meeting a call of a database method in the goal: split on its result
    and keep what its case lemma says of the world it leaves. *)
Ltac meet c lemma :=
  let H := fresh "H" in
  pose proof lemma as H; cbv zeta in H; revert H;
  let r := fresh "r" in
  let w := fresh "w" in
  destruct c as [r w]; cbn [fst snd]; intro H; destruct r as [?|?].

Ltac call :=
  match goal with
  | |- context [save_message E ?c ?r ?t ?w] =>
      meet (save_message E c r t w) (save_message_cases c r t w)
  | |- context [log_activity E ?u ?a ?m ?w] =>
      meet (log_activity E u a m w) (log_activity_cases u a m w)
  | |- context [check_agent_access E ?u ?a ?w] =>
      meet (check_agent_access E u a w) (check_agent_access_cases u a w)
  | |- context [create_conversation E ?u ?a ?w] =>
      meet (create_conversation E u a w) (create_conversation_cases u a w)
  end.

Ltac unpack :=
  repeat match goal with
  | H : _ /\ _ |- _ => destruct H
  | H : exists _, _ |- _ => destruct H
  | H : _ \/ _ |- _ => destruct H
  | H : db_step _ _ |- _ => destruct H
  end; cbn in *.

(** A field of the last world is the field of the first with what the
    steps in between appended. *)
Ltac chase :=
  cbn;
  repeat match goal with
  | H : ?l = _ |- context [?l] => rewrite H
  end;
  unfold chunks_of; rewrite <- ?app_assoc; cbn;
  first [ reflexivity | symmetry; apply app_nil_r ].

(** The inner [try] block never raises, and ends in one of the outcomes of
    [reply]. *)
Lemma stream_response_cases u a m cid agent w :
  exists w',
    stream_response E u a m cid agent w = (Ok tt, w') /\
    reply E u a m cid agent w w'.
Proof.
  unfold stream_response, try_except, bind.
  unfold note at 1, modify at 1.
  rewrite async_for_stream.
  call; [call|]; unfold send_text, modify; eexists; (split; [reflexivity|]);
    unpack.
  - (* saved, logged, complete *)
    match goal with
    | Hm : messages _ = _ ++ [message_of _ _ _ ?ts],
      Ha : activity_logs _ = _ ++ [activity_of _ _ _ ?ts'] |- _ =>
        apply (Completed E u a m cid agent _ _ ts ts')
    end; solve [chase | lia].
  - (* saved, but the second log_activity raised *)
    match goal with
    | Hm : messages _ = _ ++ [message_of _ _ _ ?ts],
      Hf : storage_fault _ _ ?e |- _ =>
        apply (Aborted E u a m cid agent _ _ e
                 [message_of cid "assistant"
                    (join (fst (get_agent_response_stream E agent m))) ts]
                 [InsertMessage cid "assistant"
                    (join (fst (get_agent_response_stream E agent m)));
                  UpdateConversation cid])
    end; try solve [chase].
    + eapply storage_fault_url; [|eassumption]. chase.
    + right. eexists. split; [|reflexivity]. lia.
  - (* save_message raised before its INSERT *)
    match goal with
    | Hf : storage_fault _ _ ?e |- _ =>
        apply (Aborted E u a m cid agent _ _ e [] [])
    end; try solve [chase].
    + eapply storage_fault_url; [|eassumption]. reflexivity.
    + left. reflexivity.
  - (* save_message raised after its INSERT *)
    match goal with
    | Hm : messages _ = _ ++ [message_of _ _ _ ?ts],
      Hf : storage_fault _ _ ?e |- _ =>
        apply (Aborted E u a m cid agent _ _ e
                 [message_of cid "assistant"
                    (join (fst (get_agent_response_stream E agent m))) ts]
                 [InsertMessage cid "assistant"
                    (join (fst (get_agent_response_stream E agent m)))])
    end; try solve [chase].
    + eapply storage_fault_url; [|eassumption]. reflexivity.
    + right. eexists. split; [|reflexivity]. lia.
Qed.

Lemma all_present (x y z : option string) :
  all [x; y; z] = true -> exists u a m, x = Some u /\ y = Some a /\ z = Some m.
Proof.
  unfold all. cbn.
  destruct x as [u|], y as [a|], z as [m|]; cbn;
    rewrite ?andb_false_r; try discriminate.
  intros _. now exists u, a, m.
Qed.

Lemma not_entitled_paid u a w : entitled u a w = false -> is_free a = false.
Proof. unfold entitled. now destruct (is_free a). Qed.

Ltac blamed :=
  match goal with
  | H : storage_fault E _ _ |- storage_fault E _ _ =>
      eapply storage_fault_url; [|exact H]; chase
  end.

Lemma user_then_quiet evs cid m rest :
  forallb (fun ev => negb (reply_step ev)) evs = true ->
  user_first false (evs ++ InsertMessage cid "user" m :: rest) = true.
Proof.
  intros Hquiet. rewrite user_first_app, (quiet_user_first _ _ Hquiet).
  cbn. rewrite orb_true_r. apply user_first_seen.
Qed.

Lemma user_inserted evs cid m rest :
  existsb user_insert (evs ++ InsertMessage cid "user" m :: rest) = true.
Proof. rewrite existsb_app. cbn. apply orb_true_r. Qed.

Lemma quiet_app evs evs' :
  forallb (fun ev => negb (reply_step ev)) evs = true ->
  forallb (fun ev => negb (reply_step ev)) evs' = true ->
  forallb (fun ev => negb (reply_step ev)) (evs ++ evs') = true.
Proof. intros H H'. now rewrite forallb_app, H, H'. Qed.

(** Closing the premises of an outcome. *)
Ltac settle :=
  solve [ blamed | chase | eexists; unfold sent_row; chase
        | apply user_then_quiet;
          first [assumption | apply quiet_app; [assumption | reflexivity]]
        | apply user_inserted
        | apply quiet_app; [assumption | reflexivity]
        | apply quiet_app; [apply quiet_app|]; [assumption | reflexivity ..]
        | intros; congruence ].

(** From the first [save_message] on, in a world whose journal so far is
    [evs]. *)
Ltac save_and_stream u a m cid evs :=
  call; unpack;
  [ match goal with
    | |- context [stream_response E _ _ _ _ ?agent ?w2] =>
        let w' := fresh "w'" in
        let Hrun := fresh "Hrun" in
        let Hreply := fresh "Hreply" in
        destruct (stream_response_cases u a m cid agent w2)
          as (w' & Hrun & Hreply);
        rewrite Hrun; cbn [fst snd];
        eapply (Answered E _ _ u a m cid _
                  (evs ++ [InsertMessage cid "user" m; UpdateConversation cid])
                  w2 w');
        eauto; settle
    end
  | eapply (Unsaved E _ _ u a m _ [] evs); eauto; settle
  | eapply (Unsaved E _ _ u a m _ _ (evs ++ [InsertMessage cid "user" m]));
    eauto; settle ].

(** Every turn of the receive loop ends in one of the outcomes of
    [served_as]. *)
Lemma handle_request_cases md w :
  served_as E md w (fst (handle_request E md w)) (snd (handle_request E md w)).
Proof.
  unfold handle_request, loop_body.
  destruct (all [user_id md; agent_id md; message md]) eqn:Hall; cbn [negb].
  2:{ unfold send_text, modify; cbn. now apply Rejected. }
  destruct (all_present _ _ _ Hall) as (u & a & m & Hu & Ha & Hm).
  rewrite Hu, Ha, Hm. unfold bind.
  call; unpack.
  2:{ (* the first log_activity raised *)
      eapply (Unchecked E md w u a m _ [] []); eauto;
        solve [blamed | chase | now left]. }
  call; unpack.
  2:{ (* check_agent_access raised *)
      eapply (Unchecked E md w u a m _ _ [InsertActivity u "message_sent"]);
        eauto; solve [blamed | chase]. }
  subst. rewrite (entitled_same u a w) by assumption.
  destruct (entitled u a w) eqn:Hent; cbn [negb].
  2:{ (* denied *)
      rewrite (not_entitled_paid _ _ _ Hent) in *.
      unfold send_text, modify; cbn.
      eapply Denied; eauto; solve [chase]. }
  assert (Hevs : exists evs,
             journal w1 = journal w ++ evs /\
             forallb (fun ev => negb (reply_step ev)) evs = true).
  { destruct (is_free a); eexists; (split; [chase|]); reflexivity. }
  destruct Hevs as (evs & Hj & Hquiet).
  clear H3 H8.
  destruct (truthy (conversation_id md)) eqn:Hcid; cbn [negb].
  - (* the client named the conversation *)
    destruct (conversation_id md) as [c|] eqn:Hc; [|discriminate].
    unfold ret.
    save_and_stream u a m c evs.
  - (* a conversation is created *)
    call; unpack.
    + match goal with
      | Hnew : journal ?w2 = journal w1 ++ [InsertConversation ?cid u a] |- _ =>
          assert (Hj' : journal w2 =
                        journal w ++ evs ++ [InsertConversation cid u a])
            by chase;
          clear Hnew;
          save_and_stream u a m cid (evs ++ [InsertConversation cid u a])
      end.
    + eapply (Unsaved E md w u a m _ [] evs); eauto; settle.
Qed.

End Cases.

(** ** Consequences of the case analysis *)

Section Consequences.

Variable E : Env.

Lemma sent_during_app w w' rs :
  channel w' = channel w ++ rs -> sent_during w w' = rs.
Proof. unfold sent_during. intros ->. apply skipn_past. Qed.

Lemma saved_during_app w w' ms :
  messages w' = messages w ++ ms -> saved_during w w' = ms.
Proof. unfold saved_during. intros ->. apply skipn_past. Qed.

(** What a reply sends: the chunks, then one last record. *)
Lemma reply_sent u a m cid agent w w' :
  reply E u a m cid agent w w' ->
  exists t,
    channel w' =
      channel w ++
      chunks_of cid (fst (get_agent_response_stream E agent m)) ++ [t] /\
    (t = CompleteRec cid \/ exists e, storage_fault E w e /\
       t = ErrorRec ("Failed to get agent response: " ++ str e)).
Proof.
  intros [ts ts' frags Hc _ _ _ _ | e saved evs frags Hf Hc _ _ _ _];
    eexists; (split; [exact Hc|]); [now left | right; eauto].
Qed.

Lemma not_entitled u a w :
  ~ In a free_agents ->
  (forall r, In r (user_agent_access w) ->
             ~ (ua_user_id r = u /\ ua_agent_id r = a)) ->
  entitled u a w = false.
Proof.
  intros Hpaid Hrows. unfold entitled.
  replace (is_free a) with false.
  2:{ symmetry. apply not_true_is_false. unfold is_free.
      intros (f & Hf & Heq)%existsb_exists.
      apply String.eqb_eq in Heq. now subst. }
  cbn.
  match goal with |- match ?found with _ => _ end = _ =>
    destruct found as [r|] eqn:Hfind end; [|reflexivity].
  apply find_some in Hfind as [Hin [Hu Ha]%andb_prop].
  apply String.eqb_eq in Hu, Ha. now destruct (Hrows r Hin).
Qed.

Lemma free_is_free a : In a free_agents -> is_free a = true.
Proof.
  intros Hin. unfold is_free. apply existsb_exists.
  exists a. split; [assumption | apply String.eqb_refl].
Qed.

Lemma healthy_no_fault w w' e :
  healthy E w -> database_url w' = database_url w ->
  storage_fault E w' e -> False.
Proof.
  intros [Hurl Hok] Heq [[Hdown _] | [n Hn]].
  - rewrite Heq in Hdown. congruence.
  - rewrite Hok in Hn. discriminate.
Qed.

(** With a healthy database, a complete and entitled request is answered
    and its reply is stored. *)
Lemma healthy_answer md w u a m :
  healthy E w ->
  user_id md = Some u -> agent_id md = Some a -> message md = Some m ->
  all [user_id md; agent_id md; message md] = true ->
  entitled u a w = true ->
  let w' := snd (handle_request E md w) in
  let frags := fst (get_agent_response_stream E (get_agent E a) m) in
  exists cid ts ts',
    sent_during w w' = chunks_of cid frags ++ [CompleteRec cid] /\
    saved_during w w' =
      [message_of cid "user" m ts;
       message_of cid "assistant" (join frags) ts'] /\
    ts <= ts'.
Proof.
  intros Hw Hu Ha Hm Hfull Hent w' frags. subst w'.
  destruct (handle_request_cases E md w)
    as [Hall
       | u' a' m' e logged evs w' Hu' Ha' Hm' Hf
       | u' a' m' ts w' Hu' Ha' Hm' Hno
       | u' a' m' e saved evs w' Hu' Ha' Hm' _ Hf
       | u' a' m' cid ts evs w1 w' Hu' Ha' Hm' _ _ Hurl Hc Hs Hts _ _ _ _ Hr].
  - congruence.
  - destruct (healthy_no_fault w w e Hw eq_refl Hf).
  - congruence.
  - destruct (healthy_no_fault w w e Hw eq_refl Hf).
  - assert (u' = u /\ a' = a /\ m' = m) as (-> & -> & ->)
      by (repeat split; congruence).
    destruct Hr as [ts1 ts2 frags' Hc' Hs' Hts' _ _
                   | e saved evs' frags' Hf _ _ _ _ _].
    + exists cid, ts, ts1. repeat split.
      * apply sent_during_app. rewrite Hc', Hc. reflexivity.
      * apply saved_during_app. rewrite Hs', Hs, <- app_assoc. reflexivity.
      * lia.
    + destruct (healthy_no_fault w w1 e Hw Hurl Hf).
Qed.


Lemma backend_down_yields a m text :
  backend_down E a m text ->
  get_agent_response_stream E (get_agent E a) m = ([text], None).
Proof.
  intros [Hnone | client agent e Hclient Hagent Hcreate];
    unfold get_agent_response_stream.
  - now rewrite Hnone.
  - now rewrite Hclient, Hagent, Hcreate.
Qed.

End Consequences.

(** ** What a request keeps *)

Lemma steady_refl w : steady w w.
Proof.
  constructor; try reflexivity; try lia; try tauto;
    exists []; now rewrite app_nil_r.
Qed.

Lemma steady_trans w1 w2 w3 : steady w1 w2 -> steady w2 w3 -> steady w1 w3.
Proof.
  intros [U1 A1 C1 K1 S1 P1 [m1 M1] [l1 L1] [s1 T1] [j1 J1] [c1 V1]]
         [U2 A2 C2 K2 S2 P2 [m2 M2] [l2 L2] [s2 T2] [j2 J2] [c2 V2]].
  constructor; try congruence; try lia; try tauto.
  - exists (m1 ++ m2). now rewrite M2, M1, app_assoc.
  - exists (l1 ++ l2). now rewrite L2, L1, app_assoc.
  - exists (s1 ++ s2). now rewrite T2, T1, app_assoc.
  - exists (j1 ++ j2). now rewrite J2, J1, app_assoc.
  - exists (c1 ++ c2). now rewrite V2, V1, app_assoc.
Qed.

Lemma identity_touch cid now cs :
  map identity_of (map (touch cid now) cs) = map identity_of cs.
Proof.
  rewrite map_map. apply map_ext. intros c. unfold touch.
  now destruct (c_id c =? cid).
Qed.

Section Keeping.

Variable E : Env.

Lemma keeps_ret {A} (a : A) : keeps steady (ret a).
Proof. intros w. apply steady_refl. Qed.

Lemma keeps_bind {A B} (c : M A) (k : A -> M B) :
  keeps steady c -> (forall a, keeps steady (k a)) -> keeps steady (bind c k).
Proof.
  intros Hc Hk w. unfold bind. specialize (Hc w).
  destruct (c w) as [[a|e] w1]; cbn in *; [|assumption].
  eapply steady_trans; [exact Hc | apply Hk].
Qed.

Lemma keeps_try_except {A} (c : M A) (h : exn -> M A) :
  keeps steady c -> (forall e, keeps steady (h e)) ->
  keeps steady (try_except c h).
Proof.
  intros Hc Hh w. unfold try_except. specialize (Hc w).
  destruct (c w) as [[a|e] w1]; cbn in *; [assumption|].
  eapply steady_trans; [exact Hc | apply Hh].
Qed.

Lemma keeps_send_text r : keeps steady (send_text r).
Proof.
  intros w. unfold send_text, modify. cbn.
  constructor; cbn; try reflexivity; try lia; try tauto;
    try (exists []; now rewrite app_nil_r).
  now exists [r].
Qed.

Lemma keeps_note ev : keeps steady (note ev).
Proof.
  intros w. unfold note, modify. cbn.
  constructor; cbn; try reflexivity; try lia; try tauto;
    try (exists []; now rewrite app_nil_r).
  now exists [ev].
Qed.

Lemma keeps_async_for cid g : keeps steady (async_for cid g).
Proof.
  intros w. destruct g as [ys [e|]]; unfold async_for, bind;
    rewrite relay_spec; cbn;
    (constructor; cbn; try reflexivity; try lia; try tauto;
     try (exists []; now rewrite app_nil_r));
    eexists; reflexivity.
Qed.

(** Closing a field of [steady] after a database method has run. *)
Ltac steady_field :=
  first [ reflexivity | lia | tauto
        | exists []; now rewrite app_nil_r
        | exists []; now rewrite identity_touch, app_nil_r
        | eexists; reflexivity
        | eexists; rewrite <- app_assoc; reflexivity
        | eexists; rewrite ?identity_touch, ?map_app; reflexivity ].

Lemma keeps_log_activity u action metadata :
  keeps steady (log_activity E u action metadata).
Proof.
  intros w. run_db. cbn. repeat (split_step E; cbn). all: constructor; cbn. all: steady_field.
Qed.

Lemma keeps_check_agent_access u a : keeps steady (check_agent_access E u a).
Proof.
  intros w. run_db. cbn. repeat (split_step E; cbn). all: constructor; cbn. all: steady_field.
Qed.

Lemma keeps_create_conversation u a :
  keeps steady (create_conversation E u a).
Proof.
  intros w. run_db. cbn. repeat (split_step E; cbn). all: constructor; cbn. all: steady_field.
Qed.

Lemma keeps_save_message cid role content :
  keeps steady (save_message E cid role content).
Proof.
  intros w. run_db. cbn. repeat (split_step E; cbn). all: constructor; cbn. all: steady_field.
Qed.

Lemma keeps_stream_response u a m cid agent :
  keeps steady (stream_response E u a m cid agent).
Proof.
  unfold stream_response.
  apply keeps_try_except; [|intros e; apply keeps_send_text].
  apply keeps_bind; [apply keeps_note | intros _].
  apply keeps_bind; [apply keeps_async_for | intros full].
  apply keeps_bind; [apply keeps_save_message | intros _].
  apply keeps_bind; [apply keeps_log_activity | intros _].
  apply keeps_send_text.
Qed.

Lemma keeps_loop_body md : keeps steady (loop_body E md).
Proof.
  unfold loop_body.
  destruct (negb (all [user_id md; agent_id md; message md]));
    [apply keeps_send_text|].
  destruct (user_id md) as [u|], (agent_id md) as [a|], (message md) as [m|];
    try apply keeps_ret.
  apply keeps_bind; [apply keeps_log_activity | intros _].
  apply keeps_bind; [apply keeps_check_agent_access | intros has_access].
  destruct (negb has_access); [apply keeps_send_text|].
  apply keeps_bind.
  - destruct (negb (truthy (conversation_id md)));
      [apply keeps_create_conversation | apply keeps_ret].
  - intros cid.
    apply keeps_bind; [apply keeps_save_message | intros _].
    apply keeps_stream_response.
Qed.

Lemma handle_request_steady md w : steady w (snd (handle_request E md w)).
Proof.
  unfold handle_request. pose proof (keeps_loop_body md w) as Hbody.
  destruct (loop_body E md w) as [[[]|e] w1]; cbn in *; [assumption|].
  eapply steady_trans; [exact Hbody | apply keeps_send_text].
Qed.

Lemma websocket_endpoint_steady inbound w :
  steady w (websocket_endpoint E inbound w).
Proof.
  revert w. induction inbound as [|md rest IH]; intros w; cbn.
  - apply steady_refl.
  - pose proof (handle_request_steady md w) as Hone.
    destruct (handle_request E md w) as [[|] w1]; cbn in *;
      [|assumption].
    eapply steady_trans; [exact Hone | apply IH].
Qed.

End Keeping.

(** ** The first statement of a request *)

Section Logging.

Variable E : Env.

Lemma bind_first {A B} (c : M A) (k : A -> M B) w :
  (forall a, keeps steady (k a)) ->
  match c w with
  | (Ok _, w0) => steady w0 (snd (bind c k w))
  | (Raise e, w0) => bind c k w = (Raise e, w0)
  end.
Proof.
  intros Hk. unfold bind.
  destruct (c w) as [[a|e] w0]; [apply Hk | reflexivity].
Qed.

(** A complete request calls [log_activity] first. If the call raises, the
    request has recorded nothing and the endpoint leaves the loop; if it
    returns, its row and its INSERT come before everything else the request
    records. *)
Lemma message_sent_first md w u a m :
  user_id md = Some u -> agent_id md = Some a -> message md = Some m ->
  all [user_id md; agent_id md; message md] = true ->
  let w' := snd (handle_request E md w) in
  (exists e,
     storage_fault E w e /\
     fst (handle_request E md w) = Disconnected /\
     channel w' = channel w ++ [ErrorRec ("Connection error: " ++ str e)] /\
     activity_logs w' = activity_logs w /\ journal w' = journal w)
  \/
  (exists ts more evs,
     activity_logs w' = activity_logs w ++ sent_row md u a m ts :: more /\
     journal w' = journal w ++ InsertActivity u "message_sent" :: evs).
Proof.
  intros Hu Ha Hm Hall w'. subst w'.
  unfold handle_request, loop_body. rewrite Hall, Hu, Ha, Hm.
  cbv beta iota. cbn [negb].
  match goal with
  | |- context [bind (log_activity E ?x ?act ?meta) ?k w] =>
      pose proof (bind_first (log_activity E x act meta) k w) as Hfirst;
      pose proof (log_activity_cases E x act meta w) as Hlog;
      assert (Hk : forall r, keeps steady (k r))
  end.
  { intros _.
    apply keeps_bind; [apply keeps_check_agent_access | intros has_access].
    destruct (negb has_access); [apply keeps_send_text|].
    apply keeps_bind.
    - destruct (negb (truthy (conversation_id md)));
        [apply keeps_create_conversation | apply keeps_ret].
    - intros cid.
      apply keeps_bind; [apply keeps_save_message | intros _].
      apply keeps_stream_response. }
  specialize (Hfirst Hk). clear Hk. cbv zeta in Hlog.
  destruct (log_activity E u "message_sent" _ w) as [[[]|e] w0];
    cbn [fst snd] in Hlog, Hfirst.
  - (* logged *)
    right.
    destruct Hlog as (_ & _ & _ & ts & Hrow & Hj).
    destruct Hfirst as [_ _ _ _ _ _ _ [more Hmore] _ [evs Hevs] _].
    exists ts, more, evs.
    match goal with
    | |- context [bind ?c ?k w] => destruct (bind c k w) as [[[]|e'] w1]
    end; cbn [fst snd] in *; unfold send_text, modify; cbn [snd];
      cbn [activity_logs journal set_channel];
      rewrite Hmore, Hevs, Hrow, Hj, <- !app_assoc; split; reflexivity.
  - (* [log_activity] raised *)
    left. rewrite Hfirst. cbn [fst snd].
    destruct Hlog as ([_ _ Hc _] & _ & _ & Hf & Hrow & Hj).
    exists e. unfold send_text, modify. cbn [snd].
    cbn [channel activity_logs journal set_channel].
    rewrite Hc. repeat split; assumption.
Qed.

End Logging.

(** * The claims *)

Section Claims.

Variable E : Env.

(** C7: a request in which [user_id], [agent_id] or [message] is missing or
    empty is answered with the one error record "Missing required fields"
    and nothing else happens: no conversation, no message and no activity
    row is written, no statement is executed and the database server is not
    even contacted. *)
Theorem missing_field_touches_no_storage (md : message_data) (w : World) :
  truthy (user_id md) = false \/ truthy (agent_id md) = false \/
  truthy (message md) = false ->
  let w' := snd (handle_request E md w) in
  fst (handle_request E md w) = Listening /\
  sent_during w w' =
    [ErrorRec "Missing required fields: user_id, agent_id, message"] /\
  conversations w' = conversations w /\
  messages w' = messages w /\
  activity_logs w' = activity_logs w /\
  journal w' = journal w /\
  served w' = served w.
Proof.
  intros Hmissing w'. subst w'.
  unfold handle_request, loop_body.
  replace (all [user_id md; agent_id md; message md]) with false.
  2:{ unfold all. cbn.
      destruct Hmissing as [-> | [-> | ->]]; cbn;
        now rewrite ?andb_false_r. }
  cbn. repeat split. now apply sent_during_app.
Qed.

(** C6: a request for an agent outside the free set, from a user without a
    row in [user_agent_access] for it, is answered with a single error
    record, and [conversations] and [messages] are left as they were,
    whatever the database server does. *)
Theorem unentitled_request_leaves_conversations (md : message_data)
    (w : World) (a : string) :
  agent_id md = Some a ->
  ~ In a free_agents ->
  (forall u r, user_id md = Some u -> In r (user_agent_access w) ->
               ~ (ua_user_id r = u /\ ua_agent_id r = a)) ->
  let w' := snd (handle_request E md w) in
  (exists msg, sent_during w w' = [ErrorRec msg]) /\
  conversations w' = conversations w /\
  messages w' = messages w.
Proof.
  intros Ha Hpaid Hrows w'. subst w'.
  destruct (handle_request_cases E md w)
    as [Hall
       | u' a' m' e logged evs w' Hu' Ha' Hm' Hf Hc Hcv Hms
       | u' a' m' ts w' Hu' Ha' Hm' Hno Hc Hcv Hms
       | u' a' m' e saved evs w' Hu' Ha' Hm' Hyes
       | u' a' m' cid ts evs w1 w' Hu' Ha' Hm' Hyes].
  - cbn. repeat split. eexists. now apply sent_during_app.
  - repeat split; try assumption. eexists. apply sent_during_app, Hc.
  - repeat split; try assumption. eexists. apply sent_during_app, Hc.
  - assert (a' = a) as -> by congruence.
    rewrite (not_entitled u' a w Hpaid (fun r => Hrows u' r Hu')) in Hyes.
    discriminate.
  - assert (a' = a) as -> by congruence.
    rewrite (not_entitled u' a w Hpaid (fun r => Hrows u' r Hu')) in Hyes.
    discriminate.
Qed.

(** C3: whatever the database server and the backend do, the records a
    request adds to the channel are chunk records followed by exactly one
    terminal record, a "complete" record or an error record, which comes
    last. *)
Theorem one_terminal_record_last (md : message_data) (w : World) :
  let w' := snd (handle_request E md w) in
  exists chunks t,
    channel w' = channel w ++ chunks ++ [t] /\
    forallb is_chunk chunks = true /\
    is_terminal t = true /\
    filter is_terminal (sent_during w w') = [t].
Proof.
  intros w'. subst w'.
  assert (Hshape : exists chunks t,
             channel (snd (handle_request E md w)) = channel w ++ chunks ++ [t]
             /\ forallb is_chunk chunks = true /\ is_terminal t = true).
  { destruct (handle_request_cases E md w)
      as [Hall
         | u' a' m' e logged evs w' _ _ _ _ Hc
         | u' a' m' ts w' _ _ _ _ Hc
         | u' a' m' e saved evs w' _ _ _ _ _ Hc
         | u' a' m' cid ts evs w1 w' _ _ _ _ _ _ Hc _ _ _ _ _ _ Hr].
    - exists [], (ErrorRec "Missing required fields: user_id, agent_id, message").
      now cbn.
    - eexists [], _. now rewrite Hc.
    - eexists [], _. now rewrite Hc.
    - eexists [], _. now rewrite Hc.
    - destruct (reply_sent E _ _ _ _ _ _ _ Hr) as (t & Hc' & Ht).
      exists (chunks_of cid (fst (get_agent_response_stream E (get_agent E a') m'))), t.
      rewrite Hc', Hc. repeat split.
      + apply chunks_are_chunks.
      + destruct Ht as [-> | (e & _ & ->)]; reflexivity. }
  destruct Hshape as (chunks & t & Hc & Hchunks & Ht).
  exists chunks, t. repeat split; try assumption.
  rewrite (sent_during_app _ _ _ Hc), filter_app. cbn. rewrite Ht.
  replace (filter is_terminal chunks) with (@nil record); [reflexivity|].
  clear Hc. induction chunks as [|[c i|i|s] chunks IH]; cbn in *;
    try discriminate; auto.
Qed.

(** C2: when a request ends with a "complete" record, the records it sent
    are the chunk records of the fragments the generator yielded, in the
    order it yielded them, followed by that record; and the assistant
    message stored for the request, after the user message, is exactly the
    concatenation of the contents of those chunk records. *)
Theorem relayed_chunks_are_the_stored_reply (md : message_data) (w : World)
    (cid : string) :
  In (CompleteRec cid) (sent_during w (snd (handle_request E md w))) ->
  let w' := snd (handle_request E md w) in
  exists u a m ts ts',
    user_id md = Some u /\ agent_id md = Some a /\ message md = Some m /\
    sent_during w w' =
      chunks_of cid (fst (get_agent_response_stream E (get_agent E a) m)) ++
      [CompleteRec cid] /\
    chunk_contents (sent_during w w') =
      fst (get_agent_response_stream E (get_agent E a) m) /\
    saved_during w w' =
      [message_of cid "user" m ts;
       message_of cid "assistant"
         (join (chunk_contents (sent_during w w'))) ts'].
Proof.
  intros Hdone w'. subst w'.
  destruct (handle_request_cases E md w)
    as [Hall
       | u' a' m' e logged evs w' _ _ _ _ Hc
       | u' a' m' ts w' _ _ _ _ Hc
       | u' a' m' e saved evs w' _ _ _ _ _ Hc
       | u a m cid' ts evs w1 w' Hu Ha Hm _ _ _ Hc Hs _ _ _ _ _ Hr].
  1: unfold sent_during in Hdone; cbn in Hdone; rewrite skipn_past in Hdone.
  2-4: rewrite (sent_during_app _ _ _ Hc) in Hdone.
  1-4: destruct Hdone as [Hdone | []]; discriminate.
  destruct Hr as [ts1 ts2 frags Hc' Hs' _ _ _
                 | e saved evs' frags _ Hc' _ _ _ _];
    rewrite Hc in Hc'; rewrite (sent_during_app _ _ _ Hc') in *;
    apply in_app_or in Hdone as [Hdone | [Hdone | []]];
    try (apply chunks_have_no_terminal in Hdone);
    try discriminate.
  injection Hdone as <-.
  assert (Hcontents : chunk_contents (chunks_of cid' frags ++ [CompleteRec cid'])
                      = frags).
  { rewrite chunk_contents_app. unfold chunks_of.
    rewrite chunk_contents_chunks. apply app_nil_r. }
  exists u, a, m, ts, ts1. repeat split; try assumption.
  rewrite Hcontents. apply saved_during_app.
  rewrite Hs', Hs, <- app_assoc. reflexivity.
Qed.

(** C8: in the journal of a request, calling the response generator and
    inserting an assistant message come only after the INSERT of a user
    message; and every assistant message the request stored has before it,
    among the rows the request stored, the user message of the request, in
    the same conversation and with a creation time that is not later. The
    creation times are readings of the clock of the database server, which
    does not run backwards. *)
Theorem user_message_first (md : message_data) (w : World) :
  let w' := snd (handle_request E md w) in
  exists evs saved,
    journal w' = journal w ++ evs /\
    messages w' = messages w ++ saved /\
    (forall pre ev post,
        evs = pre ++ ev :: post -> reply_step ev = true ->
        existsb user_insert pre = true) /\
    (forall r,
        In r saved -> m_role r = "assistant" ->
        exists q,
          saved = [q; r] /\ m_role q = "user" /\
          message md = Some (m_content q) /\
          m_conversation_id q = m_conversation_id r /\
          m_created_at q <= m_created_at r).
Proof.
  intros w'. subst w'.
  assert (Hordered : exists evs saved,
             journal (snd (handle_request E md w)) = journal w ++ evs /\
             messages (snd (handle_request E md w)) = messages w ++ saved /\
             user_first false evs = true /\
             (forall r, In r saved -> m_role r = "assistant" ->
                exists q, saved = [q; r] /\ m_role q = "user" /\
                  message md = Some (m_content q) /\
                  m_conversation_id q = m_conversation_id r /\
                  m_created_at q <= m_created_at r)).
  { destruct (handle_request_cases E md w)
      as [Hall
         | u' a' m' e logged evs w' _ _ _ _ _ _ Hs _ _ Hj Hq
         | u' a' m' ts w' _ _ _ _ _ _ Hs _ Hj
         | u' a' m' e saved evs w' _ _ _ _ _ _ Hs Hone _ Hj Hq
         | u a m cid ts evs w1 w' _ _ Hm _ _ _ _ Hs Hts _ Hj Hfirst Hseen Hr].
    - exists [], []. cbn. rewrite !app_nil_r. repeat split. intros r [].
    - exists evs, []. rewrite app_nil_r. repeat split; try assumption.
      + now apply quiet_user_first.
      + intros r [].
    - exists [InsertActivity u' "message_sent"; SelectAccess u' a'], [].
      rewrite app_nil_r. repeat split; try assumption. intros r [].
    - exists evs, saved. repeat split; try assumption.
      + now apply quiet_user_first.
      + destruct Hone as [-> | (c & t & ->)];
          [intros r [] | intros r [<- | []]; cbn; discriminate].
    - destruct Hr as [ts1 ts2 frags _ Hs' Hts' _ Hj'
                     | e saved evs' frags _ _ Hs' Hone _ Hj'];
        rewrite Hj in Hj'; rewrite Hs in Hs'; rewrite <- app_assoc in Hj', Hs'.
      + eexists _, _. repeat split; try eassumption.
        * rewrite user_first_app, Hfirst, Hseen. apply user_first_seen.
        * intros r [<- | [<- | []]]; [discriminate|].
          intros _. eexists. repeat split; try reflexivity;
            [exact Hm | cbn; lia].
      + eexists _, _. repeat split; try eassumption.
        * rewrite user_first_app, Hfirst, Hseen. apply user_first_seen.
        * destruct Hone as [-> | (t & Ht & ->)];
            intros r [<- | Hin]; try discriminate.
          -- destruct Hin.
          -- destruct Hin as [<- | []].
             intros _. eexists. repeat split; try reflexivity;
               [exact Hm | cbn; lia]. }
  destruct Hordered as (evs & saved & Hj & Hs & Hfirst & Hrows).
  exists evs, saved. repeat split; try assumption.
  intros pre ev post Hsplit Hev.
  destruct (user_first_sound false evs pre post ev Hfirst Hsplit Hev);
    [discriminate | assumption].
Qed.

(** C5, as the code has it: a request that passes validation calls
    [log_activity(user_id, "message_sent", ...)] first, before the
    entitlement check. If that call raises, nothing is recorded and the
    endpoint reports "Connection error" and leaves the loop; otherwise the
    "message_sent" row is the first row and its INSERT the first statement
    the request records, ahead of the SELECT of the check. A request that
    is answered with the denial has therefore recorded exactly one activity
    row, for "message_sent", and nothing that records the denial: the
    journal of the request is that INSERT and the SELECT of the check. *)
Theorem denied_request_is_logged_as_sent (md : message_data) (w : World) :
  all [user_id md; agent_id md; message md] = true ->
  let w' := snd (handle_request E md w) in
  exists u a m,
    user_id md = Some u /\ agent_id md = Some a /\ message md = Some m /\
    ((exists e,
        storage_fault E w e /\
        fst (handle_request E md w) = Disconnected /\
        sent_during w w' = [ErrorRec ("Connection error: " ++ str e)] /\
        activity_logs w' = activity_logs w /\ journal w' = journal w)
     \/
     (exists ts more evs,
        activity_logs w' = activity_logs w ++ sent_row md u a m ts :: more /\
        al_action (sent_row md u a m ts) = "message_sent" /\
        journal w' = journal w ++ InsertActivity u "message_sent" :: evs)) /\
    (sent_during w w' =
       [ErrorRec "Access denied to this agent. Payment required."] ->
     exists ts,
       entitled u a w = false /\
       activity_logs w' = activity_logs w ++ [sent_row md u a m ts] /\
       journal w' =
         journal w ++ [InsertActivity u "message_sent"; SelectAccess u a]).
Proof.
  intros Hfull w'. subst w'.
  destruct (all_present _ _ _ Hfull) as (u & a & m & Hu & Ha & Hm).
  exists u, a, m. do 3 (split; [assumption|]). split.
  - destruct (message_sent_first E md w u a m Hu Ha Hm Hfull)
      as [(e & Hf & Hleft & Hc & Hrows & Hj)
         | (ts & more & evs & Hrows & Hj)].
    + left. exists e. repeat split; try assumption.
      now apply sent_during_app.
    + right. exists ts, more, evs. repeat split; assumption.
  - intros Hdenied.
    destruct (handle_request_cases E md w)
      as [Hall
         | u' a' m' e logged evs w' _ _ _ _ Hc
         | u' a' m' ts w' Hu' Ha' Hm' Hno Hc _ _ Hlog Hj
         | u' a' m' e saved evs w' _ _ _ _ _ Hc
         | u' a' m' cid ts evs w1 w' _ _ _ _ _ _ Hc _ _ _ _ _ _ Hr].
    + congruence.
    + rewrite (sent_during_app _ _ _ Hc) in Hdenied.
      injection Hdenied as Hdenied.
      now destruct (connection_error_not_denial (str e)); f_equal.
    + assert (u' = u) by congruence. assert (a' = a) by congruence.
      assert (m' = m) by congruence. subst u' a' m'.
      exists ts. repeat split; assumption.
    + rewrite (sent_during_app _ _ _ Hc) in Hdenied.
      injection Hdenied as Hdenied.
      now destruct (connection_error_not_denial (str e)); f_equal.
    + destruct (reply_sent E _ _ _ _ _ _ _ Hr) as (t & Hc' & Ht).
      rewrite Hc in Hc'. rewrite (sent_during_app _ _ _ Hc') in Hdenied.
      change [ErrorRec "Access denied to this agent. Payment required."]
        with ([] ++ [ErrorRec "Access denied to this agent. Payment required."])
        in Hdenied.
      apply app_inj_tail in Hdenied as [_ ->].
      destruct Ht as [Ht | (e & _ & Ht)]; [discriminate|].
      symmetry in Ht. now destruct (generation_error_not_denial (str e)).
Qed.


(** C4, as the code has it: when there is no OpenAI client, or the call of
    the backend raises, [get_agent_response_stream] does not raise: it
    yields the explanatory text as its only fragment. For a request that
    passes validation there are then three outcomes, whatever the database
    does. Either generation is reached: the client receives the chunk
    record with the explanatory text, the user message is stored, and the
    chunk is followed by "complete" or, when a storage call after
    generation fails, by the error record of that storage failure. Or a
    storage call before generation fails, and the client receives only
    "Connection error". Or the user is not entitled, and the client
    receives only the denial. With a healthy database and an entitled user
    the records are the chunk and "complete", with no error record, and the
    explanatory text is stored after the user message as the assistant
    message. *)
Theorem backend_down_is_explained (md : message_data) (w : World)
    (u a m text : string) :
  user_id md = Some u -> agent_id md = Some a -> message md = Some m ->
  all [user_id md; agent_id md; message md] = true ->
  backend_down E a m text ->
  let w' := snd (handle_request E md w) in
  get_agent_response_stream E (get_agent E a) m = ([text], None) /\
  ((exists cid t ts rest,
      sent_during w w' = [ChunkRec text cid; t] /\
      (t = CompleteRec cid \/
       exists e, storage_fault E w e /\
                 t = ErrorRec ("Failed to get agent response: " ++ str e)) /\
      saved_during w w' = message_of cid "user" m ts :: rest)
   \/
   (exists e,
      storage_fault E w e /\
      sent_during w w' = [ErrorRec ("Connection error: " ++ str e)])
   \/
   (entitled u a w = false /\
    sent_during w w' =
      [ErrorRec "Access denied to this agent. Payment required."])) /\
  (healthy E w -> entitled u a w = true ->
   exists cid ts ts',
     sent_during w w' = [ChunkRec text cid; CompleteRec cid] /\
     saved_during w w' =
       [message_of cid "user" m ts; message_of cid "assistant" text ts']).
Proof.
  intros Hu Ha Hm Hfull Hdown w'. subst w'.
  pose proof (backend_down_yields E _ _ _ Hdown) as Hyields.
  split; [exact Hyields|]. split.
  - destruct (handle_request_cases E md w)
      as [Hall
         | u' a' m' e logged evs w' _ _ _ Hf Hc
         | u' a' m' ts w' Hu' Ha' _ Hno Hc
         | u' a' m' e saved evs w' _ _ _ _ Hf Hc
         | u' a' m' cid ts evs w1 w' _ Ha' Hm' _ _ Hurl Hc Hs _ _ _ _ _ Hr].
    + congruence.
    + right. left. exists e. split; [exact Hf | now apply sent_during_app].
    + right. right.
      assert (u' = u) by congruence. assert (a' = a) by congruence.
      subst u' a'. split; [exact Hno | now apply sent_during_app].
    + right. left. exists e. split; [exact Hf | now apply sent_during_app].
    + left.
      assert (a' = a) by congruence. assert (m' = m) by congruence.
      subst a' m'.
      destruct (reply_sent E _ _ _ _ _ _ _ Hr) as (t & Hc' & Ht).
      rewrite Hyields, Hc in Hc'. cbn [fst chunks_of map app] in Hc'.
      assert (Hrest : exists rest, messages w' = messages w1 ++ rest).
      { destruct Hr as [? ? ? _ Hs' _ _ _ | ? saved ? ? _ _ Hs' _ _ _];
          eexists; exact Hs'. }
      destruct Hrest as (rest & Hrest).
      exists cid, t, ts, rest. repeat split.
      * now apply sent_during_app.
      * destruct Ht as [-> | (e & Hf & ->)]; [now left | right].
        exists e. split; [|reflexivity].
        now apply (storage_fault_url E w w1).
      * apply saved_during_app. rewrite Hrest, Hs, <- app_assoc. reflexivity.
  - intros Hw Hent.
    destruct (healthy_answer E md w u a m Hw Hu Ha Hm Hfull Hent)
      as (cid & ts & ts' & Hsent & Hsaved & _).
    rewrite Hyields in Hsent, Hsaved.
    cbn [fst] in Hsent, Hsaved.
    exists cid, ts, ts'. split; [exact Hsent|].
    rewrite Hsaved. unfold join. cbn. now rewrite append_empty_r.
Qed.

(** C9, as the code has it: [check_agent_access] acquires a connection
    first. Once the connection is acquired, the check of an agent of the
    free set returns true whatever [user_agent_access] holds: it releases
    the connection and does nothing else, so that no statement is executed
    and the database server is not contacted again. *)
Theorem free_agent_access_once_connected (u a : string) (w w1 : World) :
  In a free_agents ->
  get_connection E w = (Ok tt, w1) ->
  check_agent_access E u a w = (Ok true, snd (release_connection w1)) /\
  served (snd (check_agent_access E u a w)) = served w1 /\
  journal (snd (check_agent_access E u a w)) = journal w1 /\
  user_agent_access (snd (check_agent_access E u a w)) = user_agent_access w1.
Proof.
  intros Hfree%free_is_free Hconn.
  assert (Hrun : check_agent_access E u a w =
                 (Ok true, snd (release_connection w1))).
  { unfold check_agent_access, bind. rewrite Hconn.
    unfold try_finally. now rewrite Hfree. }
  rewrite Hrun. repeat split.
Qed.

(** C10: [check_agent_access] calls [get_connection] before it looks at the
    agent. When [database_url] is not set, [get_connection] raises
    [ValueError] and so does the check, for every user and every agent,
    the free ones included, leaving the world as it was. *)
Theorem unconfigured_check_raises (u a : string) (w : World) :
  truthy (database_url w) = false ->
  get_connection E w = (Raise (ValueError "Database not configured"), w) /\
  check_agent_access E u a w =
    (Raise (ValueError "Database not configured"), w).
Proof.
  intros Hurl.
  assert (Hconn : get_connection E w =
                  (Raise (ValueError "Database not configured"), w)).
  { unfold get_connection, bind, gets. now rewrite Hurl. }
  split; [exact Hconn|].
  unfold check_agent_access, bind. now rewrite Hconn.
Qed.

End Claims.

(** * The claims on concrete requests *)



Lemma relayed_chunks_witness :
  In (CompleteRec "f-uuid")
     (sent_during Demo.fresh
        (snd (handle_request Demo.steady_env (Demo.hi "creative-writer")
                Demo.fresh))) /\
  exists u a m ts ts',
    user_id (Demo.hi "creative-writer") = Some u /\
    agent_id (Demo.hi "creative-writer") = Some a /\
    message (Demo.hi "creative-writer") = Some m /\
    sent_during Demo.fresh
      (snd (handle_request Demo.steady_env (Demo.hi "creative-writer")
              Demo.fresh)) =
      chunks_of "f-uuid"
        (fst (get_agent_response_stream Demo.steady_env
                (get_agent Demo.steady_env a) m)) ++
      [CompleteRec "f-uuid"] /\
    chunk_contents
      (sent_during Demo.fresh
         (snd (handle_request Demo.steady_env (Demo.hi "creative-writer")
                 Demo.fresh))) =
      fst (get_agent_response_stream Demo.steady_env
             (get_agent Demo.steady_env a) m) /\
    saved_during Demo.fresh
      (snd (handle_request Demo.steady_env (Demo.hi "creative-writer")
              Demo.fresh)) =
      [message_of "f-uuid" "user" m ts;
       message_of "f-uuid" "assistant"
         (join (chunk_contents
                  (sent_during Demo.fresh
                     (snd (handle_request Demo.steady_env
                             (Demo.hi "creative-writer") Demo.fresh))))) ts'].
Proof.
  assert (Hdone : In (CompleteRec "f-uuid")
            (sent_during Demo.fresh
               (snd (handle_request Demo.steady_env (Demo.hi "creative-writer")
                       Demo.fresh)))).
  { vm_compute. right. right. left. reflexivity. }
  split; [exact Hdone|].
  exact (relayed_chunks_are_the_stored_reply Demo.steady_env
           (Demo.hi "creative-writer") Demo.fresh "f-uuid" Hdone).
Defined.

(** C4, counterexample: without an OpenAI client the client of the endpoint
    receives the explanatory text as a chunk record and then "complete";
    no error record is sent. *)
Lemma unconfigured_backend_completes :
  let w' := snd (handle_request Demo.quiet (Demo.hi "creative-writer")
                   Demo.fresh) in
  openai_client Demo.quiet = None /\
  sent_during Demo.fresh w' =
    [ChunkRec "AI chat is not available. Please configure OpenAI API key."
       "f-uuid";
     CompleteRec "f-uuid"] /\
  existsb is_error (sent_during Demo.fresh w') = false.
Proof. vm_compute. repeat split. Qed.

(** The same when the backend cannot be reached: the apology is the only
    chunk, and it is what is stored. *)
Example unreachable_backend_completes :
  let E := Demo.with_agents Demo.catalog
             (Demo.with_client Demo.unreachable Demo.quiet) in
  let w' := snd (handle_request E (Demo.hi "creative-writer") Demo.fresh) in
  sent_during Demo.fresh w' =
    [ChunkRec "Sorry, I encountered an error: Connection error." "f-uuid";
     CompleteRec "f-uuid"] /\
  map m_content (saved_during Demo.fresh w') =
    ["hi"; "Sorry, I encountered an error: Connection error."].
Proof. vm_compute. split; reflexivity. Qed.

(** A storage failure after the chunks were relayed: the UPDATE of the
    second [save_message] fails, the client receives the chunks and then
    one error record, and the assistant message stays stored. *)
Example late_storage_failure :
  let E := Demo.with_outcome
             (fun n => if Nat.eqb n 11 then Some (Exn "PostgresError" "gone")
                       else None)
             Demo.steady_env in
  let w' := snd (handle_request E (Demo.hi "creative-writer") Demo.fresh) in
  sent_during Demo.fresh w' =
    [ChunkRec "Hel" "f-uuid"; ChunkRec "lo" "f-uuid";
     ErrorRec "Failed to get agent response: gone"] /\
  map m_content (saved_during Demo.fresh w') = ["hi"; "Hello"].
Proof. vm_compute. split; reflexivity. Qed.

(** The backend is not configured and a storage call fails after
    generation (the INSERT of the assistant message): the explanatory chunk
    is followed by the error record of the storage failure, and the user
    message stays stored. *)
Example backend_down_then_storage_failure :
  let E := Demo.with_outcome
             (fun n => if Nat.eqb n 10 then Some (Exn "PostgresError" "gone")
                       else None)
             Demo.quiet in
  let w' := snd (handle_request E (Demo.hi "creative-writer") Demo.fresh) in
  sent_during Demo.fresh w' =
    [ChunkRec "AI chat is not available. Please configure OpenAI API key."
       "f-uuid";
     ErrorRec "Failed to get agent response: gone"] /\
  map m_content (saved_during Demo.fresh w') = ["hi"].
Proof. vm_compute. split; reflexivity. Qed.

Lemma backend_down_witness :
  healthy Demo.quiet Demo.fresh /\
  entitled "u1" "creative-writer" Demo.fresh = true /\
  exists cid ts ts',
    sent_during Demo.fresh
      (snd (handle_request Demo.quiet (Demo.hi "creative-writer")
              Demo.fresh)) =
      [ChunkRec unavailable cid; CompleteRec cid] /\
    saved_during Demo.fresh
      (snd (handle_request Demo.quiet (Demo.hi "creative-writer")
              Demo.fresh)) =
      [message_of cid "user" "hi" ts;
       message_of cid "assistant" unavailable ts'].
Proof.
  assert (Hw : healthy Demo.quiet Demo.fresh)
    by (split; [reflexivity | intros n; reflexivity]).
  assert (Hent : entitled "u1" "creative-writer" Demo.fresh = true)
    by (vm_compute; reflexivity).
  split; [exact Hw|]. split; [exact Hent|].
  refine (proj2 (proj2
            (backend_down_is_explained Demo.quiet (Demo.hi "creative-writer")
               Demo.fresh "u1" "creative-writer" "hi" unavailable
               eq_refl eq_refl eq_refl _ _)) Hw Hent).
  - vm_compute; reflexivity.
  - apply Unconfigured. reflexivity.
Defined.

(** C5, counterexample: a user without entitlement asks for the paid agent
    "data-scientist". The request is denied, and the only activity row it
    leaves is a "message_sent" row; no row records the denial. *)
Lemma denied_request_logs_message_sent :
  let w' := snd (handle_request Demo.quiet (Demo.hi "data-scientist")
                   Demo.fresh) in
  sent_during Demo.fresh w' =
    [ErrorRec "Access denied to this agent. Payment required."] /\
  map al_action (activity_logs w') = ["message_sent"].
Proof. vm_compute. split; reflexivity. Qed.

(** A request that passes validation and whose [log_activity] raises (the
    INSERT fails): no activity row is recorded and the endpoint leaves the
    loop. *)
Example failed_log_records_nothing :
  let E := Demo.with_outcome
             (fun n => if Nat.eqb n 2 then Some (Exn "PostgresError" "gone")
                       else None)
             Demo.quiet in
  handle_request E (Demo.hi "data-scientist") Demo.fresh =
    (Disconnected,
     snd (handle_request E (Demo.hi "data-scientist") Demo.fresh)) /\
  let w' := snd (handle_request E (Demo.hi "data-scientist") Demo.fresh) in
  sent_during Demo.fresh w' = [ErrorRec "Connection error: gone"] /\
  activity_logs w' = [] /\ journal w' = [].
Proof. vm_compute. repeat split. Qed.

(** [message_length] counts code points: the two bytes [0xC3 0xA9] are the
    one letter e with an acute accent. *)
Example message_length_counts_code_points :
  let m := String (Ascii.ascii_of_nat 195)
             (String (Ascii.ascii_of_nat 169) "t" ++ "e") in
  String.length m = 4 /\
  al_metadata (sent_row (Demo.hi "data-scientist") "u1" "data-scientist" m 0) =
    Some [("agent_id", JStr "data-scientist");
          ("conversation_id", JNull);
          ("message_length", JNum 3)].
Proof. vm_compute. split; reflexivity. Qed.

Lemma denied_request_witness :
  all [user_id (Demo.hi "data-scientist");
       agent_id (Demo.hi "data-scientist");
       message (Demo.hi "data-scientist")] = true /\
  let w' :=
    snd (handle_request Demo.quiet (Demo.hi "data-scientist") Demo.fresh) in
  exists ts,
    entitled "u1" "data-scientist" Demo.fresh = false /\
    activity_logs w' =
      activity_logs Demo.fresh ++
      [sent_row (Demo.hi "data-scientist") "u1" "data-scientist" "hi" ts] /\
    journal w' =
      journal Demo.fresh ++
      [InsertActivity "u1" "message_sent";
       SelectAccess "u1" "data-scientist"].
Proof.
  assert (Hfull :
            all [user_id (Demo.hi "data-scientist");
                 agent_id (Demo.hi "data-scientist");
                 message (Demo.hi "data-scientist")] = true)
    by (vm_compute; reflexivity).
  split; [exact Hfull|].
  destruct (denied_request_is_logged_as_sent Demo.quiet
              (Demo.hi "data-scientist") Demo.fresh Hfull)
    as (u & a & m & Hu & Ha & Hm & _ & Hdenied).
  injection Hu as <-. injection Ha as <-. injection Hm as <-.
  apply Hdenied. vm_compute; reflexivity.
Defined.

Lemma unentitled_request_witness :
  (exists msg,
      sent_during Demo.other_holder
        (snd (handle_request Demo.quiet (Demo.hi "data-scientist")
                Demo.other_holder)) = [ErrorRec msg]) /\
  conversations
    (snd (handle_request Demo.quiet (Demo.hi "data-scientist")
            Demo.other_holder)) = conversations Demo.other_holder /\
  messages
    (snd (handle_request Demo.quiet (Demo.hi "data-scientist")
            Demo.other_holder)) = messages Demo.other_holder.
Proof.
  apply (unentitled_request_leaves_conversations Demo.quiet
           (Demo.hi "data-scientist") Demo.other_holder "data-scientist").
  - reflexivity.
  - intros [H | [H | [H | []]]]; discriminate H.
  - intros u r Hu [<- | []] [Hr _]. cbn in Hu, Hr.
    injection Hu as <-. discriminate Hr.
Defined.

Lemma missing_field_witness :
  truthy (message Demo.empty_message) = false /\
  sent_during Demo.fresh
    (snd (handle_request Demo.quiet Demo.empty_message Demo.fresh)) =
    [ErrorRec "Missing required fields: user_id, agent_id, message"] /\
  conversations (snd (handle_request Demo.quiet Demo.empty_message Demo.fresh))
    = conversations Demo.fresh /\
  messages (snd (handle_request Demo.quiet Demo.empty_message Demo.fresh))
    = messages Demo.fresh /\
  activity_logs (snd (handle_request Demo.quiet Demo.empty_message Demo.fresh))
    = activity_logs Demo.fresh.
Proof.
  assert (Hempty : truthy (message Demo.empty_message) = false)
    by reflexivity.
  destruct (missing_field_touches_no_storage Demo.quiet Demo.empty_message
              Demo.fresh (or_intror (or_intror Hempty)))
    as (_ & Hsent & Hconv & Hmsg & Hlog & _).
  repeat split; assumption.
Defined.

(** C9, counterexample: with [DATABASE_URL] unset the check raises for the
    free agent "creative-writer" instead of returning true. *)
Lemma free_agent_check_raises :
  In "creative-writer" free_agents /\
  check_agent_access Demo.quiet "u1" "creative-writer" Demo.unconfigured =
    (Raise (ValueError "Database not configured"), Demo.unconfigured).
Proof. split; [left; reflexivity | reflexivity]. Qed.

Lemma free_agent_access_witness :
  check_agent_access Demo.quiet "u1" "creative-writer" Demo.fresh =
    (Ok true,
     snd (release_connection (snd (get_connection Demo.quiet Demo.fresh)))) /\
  journal (snd (check_agent_access Demo.quiet "u1" "creative-writer"
                  Demo.fresh)) = [].
Proof.
  destruct (free_agent_access_once_connected Demo.quiet "u1" "creative-writer"
              Demo.fresh (snd (get_connection Demo.quiet Demo.fresh)))
    as (Hrun & _ & Hjournal & _).
  - left. reflexivity.
  - reflexivity.
  - split; [exact Hrun | exact Hjournal].
Defined.

Lemma unconfigured_check_witness :
  truthy (database_url Demo.unconfigured) = false /\
  check_agent_access Demo.quiet "u1" "creative-writer" Demo.unconfigured =
    (Raise (ValueError "Database not configured"), Demo.unconfigured).
Proof.
  split; [reflexivity|].
  apply (unconfigured_check_raises Demo.quiet "u1" "creative-writer"
           Demo.unconfigured).
  reflexivity.
Defined.

(** * Beyond the chat turn: what a session keeps *)

Section Session.

Variable E : Env.

(** X1: every connection a chat session takes from the pool is given back:
    after any sequence of requests, whatever fails on the way, as many
    connections are checked out as before. *)
Theorem session_releases_connections (inbound : list message_data)
    (w : World) :
  checked_out (websocket_endpoint E inbound w) = checked_out w.
Proof. apply websocket_endpoint_steady. Qed.

(** X2: a chat session never grants or revokes an entitlement:
    [user_agent_access] is the same after any sequence of requests, and so
    is the answer of the entitlement decision for every user and agent. *)
Theorem session_keeps_entitlements (inbound : list message_data)
    (w : World) :
  user_agent_access (websocket_endpoint E inbound w) = user_agent_access w /\
  forall u a, entitled u a (websocket_endpoint E inbound w) = entitled u a w.
Proof.
  pose proof (same_access _ _ (websocket_endpoint_steady E inbound w)) as Hsame.
  split; [exact Hsame|]. intros u a. now apply entitled_same.
Qed.

(** X3: a chat session only appends: the messages and the activity rows
    there were are still there, unchanged and in the same order, before the
    new ones; no conversation is deleted, and the id, owner, agent, title
    and creation time of a conversation never change. *)
Theorem session_appends_only (inbound : list message_data) (w : World) :
  let w' := websocket_endpoint E inbound w in
  (exists added, messages w' = messages w ++ added) /\
  (exists added, activity_logs w' = activity_logs w ++ added) /\
  (exists added,
      map identity_of (conversations w') =
      map identity_of (conversations w) ++ added).
Proof.
  intros w'. subst w'.
  destruct (websocket_endpoint_steady E inbound w).
  repeat split; assumption.
Qed.

(** What one request sends: chunk records, then one terminal record. *)
Lemma handle_request_sends md w :
  exists chunks t,
    channel (snd (handle_request E md w)) = channel w ++ chunks ++ [t] /\
    filter is_terminal (chunks ++ [t]) = [t].
Proof.
  assert (Hchunks : forall cid frags t,
             is_terminal t = true ->
             filter is_terminal (chunks_of cid frags ++ [t]) = [t]).
  { intros cid frags t Ht. rewrite filter_app. cbn. rewrite Ht.
    replace (filter is_terminal (chunks_of cid frags)) with (@nil record);
      [reflexivity|].
    unfold chunks_of. induction frags as [|c frags IH]; cbn; auto. }
  destruct (handle_request_cases E md w)
    as [Hall
       | u' a' m' e logged evs w' _ _ _ _ Hc
       | u' a' m' ts w' _ _ _ _ Hc
       | u' a' m' e saved evs w' _ _ _ _ _ Hc
       | u' a' m' cid ts evs w1 w' _ _ _ _ _ _ Hc _ _ _ _ _ _ Hr].
  - now exists [], (ErrorRec "Missing required fields: user_id, agent_id, message").
  - eexists [], _. now rewrite Hc.
  - eexists [], _. now rewrite Hc.
  - eexists [], _. now rewrite Hc.
  - destruct (reply_sent E _ _ _ _ _ _ _ Hr) as (t & Hc' & Ht).
    eexists _, t. rewrite Hc', Hc. split; [reflexivity|].
    apply Hchunks. destruct Ht as [-> | (e & _ & ->)]; reflexivity.
Qed.

(** With a healthy database the endpoint goes on listening. *)
Lemma healthy_listens md w :
  healthy E w -> fst (handle_request E md w) = Listening.
Proof.
  intros Hw.
  destruct (handle_request_cases E md w)
    as [Hall
       | u' a' m' e logged evs w' _ _ _ Hf
       | u' a' m' ts w'
       | u' a' m' e saved evs w' _ _ _ _ Hf
       | u' a' m' cid ts evs w1 w']; try reflexivity;
    destruct (healthy_no_fault E w w e Hw eq_refl Hf).
Qed.

Lemma healthy_stays md w :
  healthy E w -> healthy E (snd (handle_request E md w)).
Proof.
  intros [Hurl Hok]. split; [|exact Hok].
  now rewrite (same_url _ _ (handle_request_steady E md w)).
Qed.

Lemma session_sends inbound w :
  exists sent,
    channel (websocket_endpoint E inbound w) = channel w ++ sent /\
    length (filter is_terminal sent) <= length inbound /\
    (healthy E w -> length (filter is_terminal sent) = length inbound).
Proof.
  revert w. induction inbound as [|md rest IH]; intros w; cbn.
  - exists []. now rewrite app_nil_r.
  - destruct (handle_request_sends md w) as (chunks & t & Hc & Hone).
    pose proof (healthy_listens md w) as Hlistens.
    pose proof (healthy_stays md w) as Hstays.
    destruct (handle_request E md w) as [[|] w1]; cbn in *.
    + destruct (IH w1) as (sent & Hsent & Hle & Heq).
      exists ((chunks ++ [t]) ++ sent). repeat split.
      * now rewrite Hsent, Hc, <- !app_assoc.
      * rewrite filter_app, Hone, length_app. cbn. lia.
      * intros Hw. rewrite filter_app, Hone, length_app, (Heq (Hstays Hw)).
        reflexivity.
    + exists (chunks ++ [t]). repeat split.
      * exact Hc.
      * rewrite Hone. cbn. lia.
      * intros Hw. discriminate (Hlistens Hw).
Qed.

(** X4: a session never sends more terminal records than it received
    requests: every request ends the protocol cycle at most once, and a
    request that arrives after the endpoint has left the loop is not
    answered. *)
Theorem session_terminals_bounded (inbound : list message_data) (w : World) :
  length (filter is_terminal
            (sent_during w (websocket_endpoint E inbound w))) <=
  length inbound.
Proof.
  destruct (session_sends inbound w) as (sent & Hsent & Hle & _).
  now rewrite (sent_during_app _ _ _ Hsent).
Qed.

(** *** From the received text *)

Lemma handle_frame_parsed md w :
  handle_frame E (parsed md) w = handle_request E md w.
Proof. destruct md. reflexivity. Qed.

Lemma receive_loop_parsed inbound w :
  receive_loop E (map parsed inbound) w = websocket_endpoint E inbound w.
Proof.
  revert w. induction inbound as [|md rest IH]; intros w; cbn [map];
    [reflexivity|].
  cbn [receive_loop websocket_endpoint]. rewrite handle_frame_parsed.
  destruct (handle_request E md w) as [[|] w1]; [apply IH | reflexivity].
Qed.

(** A frame the loop cannot read ends the session, and nothing else
    happens. *)
Lemma handle_frame_unreadable f e w :
  read_error f = Some e ->
  handle_frame E f w =
    (Disconnected,
     snd (send_text (ErrorRec ("Connection error: " ++ str e)) w)).
Proof.
  destruct f as [e' | t | u a [m | v] c]; cbn [read_error];
    try discriminate.
  - now intros [= ->].
  - now intros [= <-].
  - unfold handle_frame, loop_turn.
    destruct (truthy u && truthy a && truth v); [|discriminate].
    now intros [= <-].
Qed.

(** The frames the loop can read are the records of the chat turn, and the
    records whose message is a number or a boolean and that fail
    validation. *)
Lemma handle_frame_readable f w :
  read_error f = None ->
  (exists md, handle_frame E f w = handle_request E md w) \/
  handle_frame E f w =
    (Listening,
     snd (send_text
            (ErrorRec "Missing required fields: user_id, agent_id, message")
            w)).
Proof.
  destruct f as [e' | t | u a [m | v] c]; cbn [read_error];
    try discriminate; intros Hread.
  - left.
    exists {| user_id := u; agent_id := a; message := m;
              conversation_id := c |}.
    reflexivity.
  - right. unfold handle_frame, loop_turn.
    now destruct (truthy u && truthy a && truth v).
Qed.

Lemma handle_frame_cases f w :
  (exists md, handle_frame E f w = handle_request E md w) \/
  (exists r, is_error r = true /\
             handle_frame E f w = (Listening, snd (send_text r w))) \/
  (exists e, read_error f = Some e /\
             handle_frame E f w =
               (Disconnected,
                snd (send_text (ErrorRec ("Connection error: " ++ str e))
                       w))).
Proof.
  destruct (read_error f) as [e|] eqn:Hread.
  - right. right. exists e. split; [reflexivity|].
    now apply handle_frame_unreadable.
  - destruct (handle_frame_readable f w Hread) as [Hmd | Hrej];
      [now left | right; left].
    eexists. split; [|exact Hrej]. reflexivity.
Qed.

Lemma handle_frame_steady f w : steady w (snd (handle_frame E f w)).
Proof.
  destruct (handle_frame_cases f w)
    as [(md & ->) | [(r & _ & ->) | (e & _ & ->)]]; cbn [snd].
  - apply handle_request_steady.
  - apply keeps_send_text.
  - apply keeps_send_text.
Qed.

(** What one frame sends: chunk records, then one terminal record. *)
Lemma handle_frame_sends f w :
  exists chunks t,
    channel (snd (handle_frame E f w)) = channel w ++ chunks ++ [t] /\
    filter is_terminal (chunks ++ [t]) = [t].
Proof.
  destruct (handle_frame_cases f w)
    as [(md & ->) | [(r & Hr & ->) | (e & _ & ->)]].
  - apply handle_request_sends.
  - exists [], r. split; [reflexivity|].
    cbn. unfold is_terminal. now rewrite Hr, orb_true_r.
  - now eexists [], _.
Qed.

Lemma healthy_frame_listens f w :
  healthy E w -> read_error f = None -> fst (handle_frame E f w) = Listening.
Proof.
  intros Hw Hread.
  destruct (handle_frame_readable f w Hread) as [(md & ->) | ->];
    [now apply healthy_listens | reflexivity].
Qed.

Lemma healthy_frame_stays f w :
  healthy E w -> healthy E (snd (handle_frame E f w)).
Proof.
  intros [Hurl Hok]. split; [|exact Hok].
  now rewrite (same_url _ _ (handle_frame_steady f w)).
Qed.

(** X5: while the database is configured and no round trip fails, a session
    of frames that the loop can read (JSON objects whose message is a
    string or null, or a number or boolean that fails validation) never
    leaves the loop: every frame gets its terminal record, so that there
    are exactly as many terminal records as frames. *)
Theorem healthy_session_answers_all (frames : list frame) (w : World) :
  healthy E w ->
  Forall (fun f => read_error f = None) frames ->
  length (filter is_terminal (sent_during w (receive_loop E frames w))) =
  length frames.
Proof.
  intros Hw Hread.
  enough (Hsent : exists sent,
             channel (receive_loop E frames w) = channel w ++ sent /\
             length (filter is_terminal sent) = length frames).
  { destruct Hsent as (sent & Hsent & Hlen).
    now rewrite (sent_during_app _ _ _ Hsent). }
  revert w Hw. induction Hread as [|f rest Hf _ IH]; intros w Hw.
  - exists []. split; [symmetry; apply app_nil_r | reflexivity].
  - cbn [receive_loop].
    destruct (handle_frame_sends f w) as (chunks & t & Hc & Hone).
    pose proof (healthy_frame_listens f w Hw Hf) as Hlistens.
    pose proof (healthy_frame_stays f w Hw) as Hstays.
    destruct (handle_frame E f w) as [[|] w1]; cbn [fst snd] in *;
      [|discriminate].
    destruct (IH w1 Hstays) as (sent & Hsent & Hlen).
    exists ((chunks ++ [t]) ++ sent). split.
    + now rewrite Hsent, Hc, <- !app_assoc.
    + rewrite filter_app, Hone, length_app, Hlen. reflexivity.
Qed.

(** X6: the two ways out of the receive loop. A frame the loop cannot read
    (not JSON, not an object, or a number or boolean as the message of an
    otherwise complete request) ends the session whatever the state of the
    database: the client receives "Connection error: ..." and nothing else
    changes. And when the endpoint leaves the loop, the cause is such a
    frame or an exception of the database layer before generation; the
    client has received the single record "Connection error: ...", nothing
    was relayed, and the rows the request stored in [messages] are at most
    its user message. *)
Theorem disconnect_causes (f : frame) (w : World) :
  let w' := snd (handle_frame E f w) in
  (forall e,
     read_error f = Some e ->
     handle_frame E f w =
       (Disconnected,
        snd (send_text (ErrorRec ("Connection error: " ++ str e)) w))) /\
  (fst (handle_frame E f w) = Disconnected ->
   exists e,
     (read_error f = Some e \/ storage_fault E w e) /\
     sent_during w w' = [ErrorRec ("Connection error: " ++ str e)] /\
     Forall (fun r => m_role r = "user") (saved_during w w')).
Proof.
  intros w'. subst w'.
  split; [intros e; apply handle_frame_unreadable|].
  intros Hleft.
  destruct (handle_frame_cases f w)
    as [(md & Hmd) | [(r & _ & Hrej) | (e & Hread & Hrun)]].
  - rewrite Hmd in *.
    destruct (handle_request_cases E md w)
      as [Hall
         | u' a' m' e logged evs w' _ _ _ Hf Hc _ Hs
         | u' a' m' ts w'
         | u' a' m' e saved evs w' _ _ _ _ Hf Hc Hs Hone
         | u' a' m' cid ts evs w1 w']; try discriminate Hleft.
    + exists e. repeat split; [now right | now apply sent_during_app |].
      unfold saved_during. rewrite Hs.
      rewrite <- (app_nil_r (messages w)) at 2. rewrite skipn_past.
      constructor.
    + exists e. repeat split; [now right | now apply sent_during_app |].
      rewrite (saved_during_app _ _ _ Hs).
      destruct Hone as [-> | (c & t & ->)]; repeat constructor.
  - rewrite Hrej in Hleft. discriminate Hleft.
  - rewrite Hrun. cbn [snd]. exists e.
    repeat split; [now left | now apply sent_during_app |].
    unfold saved_during, send_text, modify. cbn [snd messages set_channel].
    rewrite <- (app_nil_r (messages w)) at 2. rewrite skipn_past.
    constructor.
Qed.

End Session.

(** * Entitlements: granting and listing *)

Lemma found_existsb {A} (f : A -> bool) (l : list A) :
  match find f l with Some _ => true | None => false end = existsb f l.
Proof.
  induction l as [|x l IH]; cbn; [reflexivity|].
  destruct (f x); [reflexivity | exact IH].
Qed.

Lemma entitled_rows u a w :
  entitled u a w = is_free a || existsb (same_grant u a) (user_agent_access w).
Proof. unfold entitled. f_equal. apply found_existsb. Qed.

Lemma same_grant_spec u a r :
  same_grant u a r = true <-> ua_user_id r = u /\ ua_agent_id r = a.
Proof.
  unfold same_grant. rewrite andb_true_iff, !String.eqb_eq. reflexivity.
Qed.

Lemma upsert_grants u a p now rows :
  existsb (same_grant u a) (upsert_access u a p now rows) = true.
Proof.
  unfold upsert_access.
  destruct (existsb (same_grant u a) rows) eqn:Hthere.
  - apply existsb_exists in Hthere as (r & Hin & Hr).
    apply existsb_exists.
    exists {| ua_user_id := ua_user_id r; ua_agent_id := ua_agent_id r;
              ua_payment_intent_id := p; ua_granted_at := now |}.
    split; [|exact Hr].
    apply in_map_iff. exists r. now rewrite Hr.
  - rewrite existsb_app. cbn. unfold same_grant at 2. cbn.
    now rewrite !String.eqb_refl, orb_true_r.
Qed.

Lemma upsert_other u a p now rows u' a' :
  u' <> u \/ a' <> a ->
  existsb (same_grant u' a') (upsert_access u a p now rows) =
  existsb (same_grant u' a') rows.
Proof.
  intros Hother. unfold upsert_access.
  destruct (existsb (same_grant u a) rows).
  - induction rows as [|r rows IH]; cbn; [reflexivity|].
    rewrite IH. f_equal. now destruct (same_grant u a r).
  - rewrite existsb_app. cbn. rewrite orb_false_r.
    replace (same_grant u' a' _) with false; [apply orb_false_r|].
    symmetry. apply not_true_is_false. intros [Hu Ha]%same_grant_spec.
    cbn in Hu, Ha. destruct Hother; congruence.
Qed.

Lemma NoDup_snoc {A} (l : list A) (x : A) :
  NoDup l -> ~ In x l -> NoDup (l ++ [x]).
Proof.
  induction 1 as [|y l Hy Hl IH]; cbn; intros Hx.
  - constructor; [intros [] | constructor].
  - constructor.
    + rewrite in_app_iff. intros [Hin | [<- | []]]; [contradiction|].
      apply Hx. now left.
    + apply IH. intros Hin. apply Hx. now right.
Qed.

Lemma upsert_keys u a p now rows :
  NoDup (map (fun r => (ua_user_id r, ua_agent_id r)) rows) ->
  NoDup (map (fun r => (ua_user_id r, ua_agent_id r))
             (upsert_access u a p now rows)).
Proof.
  intros Hrows. unfold upsert_access.
  destruct (existsb (same_grant u a) rows) eqn:Hthere.
  - replace (map _ (map _ rows))
      with (map (fun r => (ua_user_id r, ua_agent_id r)) rows);
      [assumption|].
    rewrite map_map. apply map_ext. intros r.
    now destruct (same_grant u a r).
  - rewrite map_app. cbn. apply NoDup_snoc; [assumption|].
    intros (r & Hkey & Hin)%in_map_iff. injection Hkey as Hu Ha.
    apply not_true_iff_false in Hthere. apply Hthere.
    apply existsb_exists. exists r. split; [assumption|].
    now apply same_grant_spec.
Qed.

Lemma upsert_again u a p now p' now' rows :
  let once := upsert_access u a p now rows in
  let twice := upsert_access u a p' now' once in
  length twice = length once /\
  forall r, In r twice -> same_grant u a r = true ->
            ua_payment_intent_id r = p' /\ ua_granted_at r = now'.
Proof.
  cbv zeta.
  pose proof (upsert_grants u a p now rows) as Hthere.
  set (once := upsert_access u a p now rows) in *.
  unfold upsert_access. rewrite Hthere. split; [apply length_map|].
  intros r (r0 & <- & Hin)%in_map_iff Hr.
  destruct (same_grant u a r0) eqn:Hr0; [now cbn | congruence].
Qed.

Section Granting.

Variable E : Env.

Lemma grant_agent_access_cases u a p w :
  let r := fst (grant_agent_access E u a p w) in
  let w' := snd (grant_agent_access E u a p w) in
  database_url w' = database_url w /\
  checked_out w' = checked_out w /\
  conversations w' = conversations w /\ messages w' = messages w /\
  activity_logs w' = activity_logs w /\ channel w' = channel w /\
  match r with
  | Ok _ =>
      exists now,
        user_agent_access w' = upsert_access u a p now (user_agent_access w)
  | Raise e =>
      storage_fault E w e /\ user_agent_access w' = user_agent_access w
  end.
Proof.
  cbv zeta. unfold grant_agent_access. run_db. cbn.
  repeat (split_step E; cbn).
  all: do 6 (split; [reflexivity|]).
  all: first [ solve [split; [faulty | reflexivity]]
             | solve [eexists; reflexivity] ].
Qed.

(** X7: read after write. When [grant_agent_access] returns, the
    entitlement holds: a later [check_agent_access] for the same user and
    agent, run in the world the grant left, never answers false (it answers
    true, or raises when the database fails). When the grant raises, the
    table is as it was. *)
Theorem grant_then_check (u a : string) (p : option string) (w : World) :
  let w' := snd (grant_agent_access E u a p w) in
  match fst (grant_agent_access E u a p w) with
  | Ok _ =>
      entitled u a w' = true /\
      forall b, fst (check_agent_access E u a w') = Ok b -> b = true
  | Raise e => user_agent_access w' = user_agent_access w
  end.
Proof.
  cbv zeta.
  pose proof (grant_agent_access_cases u a p w) as Hgrant. cbv zeta in Hgrant.
  destruct (grant_agent_access E u a p w) as [[[]|e] w']; cbn [fst snd] in *.
  - destruct Hgrant as (_ & _ & _ & _ & _ & _ & now & Hrows).
    assert (Hyes : entitled u a w' = true).
    { rewrite entitled_rows, Hrows, upsert_grants. apply orb_true_r. }
    split; [exact Hyes|]. intros b Hcheck.
    pose proof (check_agent_access_cases E u a w') as Hc. cbv zeta in Hc.
    destruct (check_agent_access E u a w') as [[b'|e'] w'']; cbn [fst snd] in *;
      [|discriminate].
    injection Hcheck as <-.
    destruct Hc as (_ & _ & _ & _ & -> & _). exact Hyes.
  - now destruct Hgrant as (_ & _ & _ & _ & _ & _ & _ & Hrows).
Qed.

(** X8: a grant concerns one pair only: for any other user or any other
    agent the entitlement decision is the same before and after
    [grant_agent_access], whether it returns or raises. *)
Theorem grant_leaves_others (u a : string) (p : option string) (w : World)
    (u' a' : string) :
  u' <> u \/ a' <> a ->
  entitled u' a' (snd (grant_agent_access E u a p w)) = entitled u' a' w.
Proof.
  intros Hother.
  pose proof (grant_agent_access_cases u a p w) as Hgrant. cbv zeta in Hgrant.
  destruct (grant_agent_access E u a p w) as [[[]|e] w']; cbn [fst snd] in *.
  - destruct Hgrant as (_ & _ & _ & _ & _ & _ & now & Hrows).
    now rewrite !entitled_rows, Hrows, upsert_other.
  - destruct Hgrant as (_ & _ & _ & _ & _ & _ & _ & Hrows).
    now apply entitled_same.
Qed.

(** X9: [grant_agent_access] keeps the constraint [UNIQUE(user_id,
    agent_id)]: if no two rows of [user_agent_access] have the same user
    and agent before, none have after, whether the grant returns or
    raises. *)
Theorem grant_keeps_unique (u a : string) (p : option string) (w : World) :
  NoDup (map (fun r => (ua_user_id r, ua_agent_id r)) (user_agent_access w)) ->
  NoDup (map (fun r => (ua_user_id r, ua_agent_id r))
             (user_agent_access (snd (grant_agent_access E u a p w)))).
Proof.
  intros Hunique.
  pose proof (grant_agent_access_cases u a p w) as Hgrant. cbv zeta in Hgrant.
  destruct (grant_agent_access E u a p w) as [[[]|e] w']; cbn [fst snd] in *.
  - destruct Hgrant as (_ & _ & _ & _ & _ & _ & now & ->).
    now apply upsert_keys.
  - destruct Hgrant as (_ & _ & _ & _ & _ & _ & _ & ->). exact Hunique.
Qed.

(** X10: granting again is an update, not a second row. When two grants
    for the same user and agent return one after the other, the table has
    as many rows after the second as after the first, and every row for
    that user and agent carries the payment reference of the second. *)
Theorem grant_twice_updates (u a : string) (p p' : option string)
    (w w1 w2 : World) :
  grant_agent_access E u a p w = (Ok tt, w1) ->
  grant_agent_access E u a p' w1 = (Ok tt, w2) ->
  length (user_agent_access w2) = length (user_agent_access w1) /\
  forall r, In r (user_agent_access w2) ->
            ua_user_id r = u -> ua_agent_id r = a ->
            ua_payment_intent_id r = p'.
Proof.
  intros Hfirst Hsecond.
  pose proof (grant_agent_access_cases u a p w) as H1.
  pose proof (grant_agent_access_cases u a p' w1) as H2.
  cbv zeta in H1, H2. rewrite Hfirst in H1. rewrite Hsecond in H2.
  cbn [fst snd] in *.
  destruct H1 as (_ & _ & _ & _ & _ & _ & now & Hrows1).
  destruct H2 as (_ & _ & _ & _ & _ & _ & now' & Hrows2).
  rewrite Hrows2, Hrows1.
  destruct (upsert_again u a p now p' now' (user_agent_access w))
    as [Hlen Hstamp].
  split; [exact Hlen|].
  intros r Hin Hu Ha. apply (Hstamp r Hin). now apply same_grant_spec.
Qed.

Lemma get_user_accessible_agents_cases u w :
  match fst (get_user_accessible_agents E u w) with
  | Ok l =>
      l = free_agents ++
          map ua_agent_id
            (filter (fun r => ua_user_id r =? u) (user_agent_access w))
  | Raise e => storage_fault E w e
  end.
Proof.
  unfold get_user_accessible_agents. run_db. cbn.
  repeat (split_step E; cbn).
  all: first [ reflexivity | faulty ].
Qed.

(** X11: the list of [get_user_accessible_agents] and the entitlement
    check agree: when the listing returns, an agent is in it exactly when
    the entitlement decision for that user and agent is true. *)
Theorem accessible_agents_are_the_entitled (u : string) (w : World)
    (l : list string) :
  fst (get_user_accessible_agents E u w) = Ok l ->
  forall a, In a l <-> entitled u a w = true.
Proof.
  intros Hrun a.
  pose proof (get_user_accessible_agents_cases u w) as Hl.
  rewrite Hrun in Hl. subst l.
  rewrite entitled_rows, in_app_iff, orb_true_iff.
  assert (Hfree : In a free_agents <-> is_free a = true).
  { split; [apply free_is_free|].
    unfold is_free. intros (f & Hf & Heq)%existsb_exists.
    apply String.eqb_eq in Heq. now subst. }
  rewrite Hfree. clear Hfree.
  enough (In a (map ua_agent_id
                  (filter (fun r => ua_user_id r =? u) (user_agent_access w)))
          <-> existsb (same_grant u a) (user_agent_access w) = true) as ->
    by reflexivity.
  - rewrite in_map_iff, existsb_exists. split.
    + intros (r & <- & [Hin Hu]%filter_In). exists r. split; [assumption|].
      apply String.eqb_eq in Hu. now apply same_grant_spec.
    + intros (r & Hin & [Hu Ha]%same_grant_spec). exists r.
      split; [assumption|]. apply filter_In. split; [assumption|].
      now apply String.eqb_eq.
Qed.

End Granting.

(** * Reading conversations and the dashboard *)

Lemma insert_by_perm {A} (key : A -> nat) (x : A) (l : list A) :
  Permutation (insert_by key x l) (x :: l).
Proof.
  induction l as [|y l IH]; cbn [insert_by]; [reflexivity|].
  destruct (Nat.ltb (key x) (key y)); [reflexivity|].
  rewrite IH. apply perm_swap.
Qed.

Lemma insert_by_sorted {A} (key : A -> nat) (x : A) (l : list A) :
  StronglySorted (fun a b => key a <= key b) l ->
  StronglySorted (fun a b => key a <= key b) (insert_by key x l).
Proof.
  induction 1 as [|y l Hl IH Hy]; cbn [insert_by].
  - repeat constructor.
  - destruct (Nat.ltb_spec (key x) (key y)) as [Hlt | Hge].
    + constructor; [now constructor|].
      constructor; [lia|].
      eapply Forall_impl; [|exact Hy]. cbn. intros b Hb. lia.
    + constructor; [exact IH|].
      eapply Permutation_Forall; [symmetry; apply insert_by_perm|].
      now constructor.
Qed.

Lemma order_by_spec {A} (key : A -> nat) (rows : list A) :
  StronglySorted (fun a b => key a <= key b) (order_by key rows) /\
  Permutation (order_by key rows) rows.
Proof.
  unfold order_by.
  enough (Hgen : forall acc,
             StronglySorted (fun a b => key a <= key b) acc ->
             StronglySorted (fun a b => key a <= key b)
               (fold_left (fun sorted x => insert_by key x sorted) rows acc) /\
             Permutation
               (fold_left (fun sorted x => insert_by key x sorted) rows acc)
               (acc ++ rows)).
  { destruct (Hgen [] (SSorted_nil _)) as [Hs Hp]. now split. }
  induction rows as [|x rows IH]; intros acc Hacc; cbn.
  - now rewrite app_nil_r.
  - destruct (IH (insert_by key x acc) (insert_by_sorted key x acc Hacc))
      as [Hs Hp].
    split; [exact Hs|].
    rewrite Hp, insert_by_perm. apply Permutation_middle.
Qed.

Lemma count_none (x : string) (keys : list string) :
  ~ In x keys ->
  list_sum (map (fun k => if string_dec x k then 1 else 0) keys) = 0.
Proof.
  induction keys as [|k keys IH]; cbn [map list_sum fold_right];
    [reflexivity|].
  fold (list_sum (map (fun k => if string_dec x k then 1 else 0) keys)).
  intros Hout.
  destruct (string_dec x k) as [->|_]; [destruct Hout; now left|].
  apply IH. intros Hin. apply Hout. now right.
Qed.

Lemma count_one (x : string) (keys : list string) :
  NoDup keys -> In x keys ->
  list_sum (map (fun k => if string_dec x k then 1 else 0) keys) = 1.
Proof.
  induction 1 as [|k keys Hk Hkeys IH]; cbn [map list_sum fold_right];
    [intros []|].
  fold (list_sum (map (fun k => if string_dec x k then 1 else 0) keys)).
  intros [-> | Hin].
  - destruct (string_dec x x) as [_|Hne]; [|contradiction].
    now rewrite (count_none x keys Hk).
  - destruct (string_dec x k) as [->|_]; [contradiction|]. now apply IH.
Qed.

(** The groups of a [GROUP BY] account for every row. *)
Lemma groups_cover (turns keys : list string) :
  NoDup keys -> incl turns keys ->
  list_sum (map (count_occ string_dec turns) keys) = length turns.
Proof.
  intros Hkeys. induction turns as [|x turns IH]; intros Hincl.
  - cbn. clear. induction keys; cbn; auto.
  - change (length (x :: turns)) with (1 + length turns).
    rewrite <- IH by (intros y Hy; apply Hincl; now right).
    rewrite <- (count_one x keys Hkeys) by (apply Hincl; now left).
    clear. unfold list_sum.
    induction keys as [|k keys IHk]; cbn [map fold_right]; [reflexivity|].
    rewrite IHk. cbn [count_occ]. destruct (string_dec x k); lia.
Qed.

Lemma latest_spec (keys : list nat) :
  match latest keys with
  | None => keys = []
  | Some t => In t keys /\ Forall (fun k => k <= t) keys
  end.
Proof.
  induction keys as [|k keys IH]; cbn; [reflexivity|].
  destruct (latest keys) as [t|].
  - destruct IH as [Hin Hall]. split.
    + destruct (Nat.max_spec k t) as [[_ ->] | [_ ->]]; [now right | now left].
    + constructor; [lia|].
      eapply Forall_impl; [|exact Hall]. cbn. intros b Hb. lia.
  - subst keys. split; [now left | repeat constructor].
Qed.

Section Reading.

Variable E : Env.

Lemma get_conversation_messages_cases cid w :
  match fst (get_conversation_messages E cid w) with
  | Ok l =>
      l = map (fun m => {| mv_role := m_role m; mv_content := m_content m;
                           mv_created_at := m_created_at m |})
            (order_by m_created_at
               (filter (fun m => m_conversation_id m =? cid) (messages w)))
  | Raise e => storage_fault E w e
  end.
Proof.
  unfold get_conversation_messages. run_db. cbn.
  repeat (split_step E; cbn).
  all: first [ reflexivity | faulty ].
Qed.

(** X12: when [get_conversation_messages] returns, its result lists the
    messages of that conversation and no others, each once per stored row,
    in ascending order of creation time. *)
Theorem conversation_messages_sorted (cid : string) (w : World)
    (l : list message_view) :
  fst (get_conversation_messages E cid w) = Ok l ->
  StronglySorted (fun a b => mv_created_at a <= mv_created_at b) l /\
  Permutation l
    (map (fun m => {| mv_role := m_role m; mv_content := m_content m;
                      mv_created_at := m_created_at m |})
         (filter (fun m => m_conversation_id m =? cid) (messages w))).
Proof.
  intros Hrun.
  pose proof (get_conversation_messages_cases cid w) as Hl.
  rewrite Hrun in Hl. subst l.
  destruct (order_by_spec m_created_at
              (filter (fun m => m_conversation_id m =? cid) (messages w)))
    as [Hsorted Hperm].
  split; [|now apply Permutation_map].
  clear Hrun Hperm.
  induction Hsorted as [|m rows Hrows IH Hm]; cbn; constructor.
  - exact IH.
  - apply Forall_map. exact Hm.
Qed.

(** X13: a message that [save_message] stored is read back. When
    [save_message] returns, every later [get_conversation_messages] of the
    same conversation that returns, run in the world the save left,
    contains the role and the content that were saved. *)
Theorem saved_message_is_listed (cid role content : string) (w : World)
    (l : list message_view) :
  fst (save_message E cid role content w) = Ok tt ->
  fst (get_conversation_messages E cid
         (snd (save_message E cid role content w))) = Ok l ->
  exists ts,
    In {| mv_role := role; mv_content := content; mv_created_at := ts |} l.
Proof.
  intros Hsave Hget.
  pose proof (save_message_cases E cid role content w) as Hs. cbv zeta in Hs.
  rewrite Hsave in Hs. destruct Hs as (_ & _ & ts & _ & Hrows & _).
  exists ts.
  pose proof (get_conversation_messages_cases cid
                (snd (save_message E cid role content w))) as Hl.
  rewrite Hget in Hl. subst l. rewrite Hrows.
  apply in_map_iff. exists (message_of cid role content ts).
  split; [reflexivity|].
  eapply Permutation_in;
    [symmetry; apply (proj2 (order_by_spec _ _))|].
  apply filter_In. split.
  - apply in_or_app. right. now left.
  - cbn. apply String.eqb_refl.
Qed.

Lemma get_user_dashboard_data_cases u w :
  match fst (get_user_dashboard_data E u w) with
  | Ok d =>
      total_messages d = length (user_turns u w) /\
      agent_interactions d =
        map (fun agent_id =>
               (agent_id, count_occ string_dec (user_turns u w) agent_id))
            (nodup string_dec (user_turns u w)) /\
      last_activity d =
        latest (map al_created_at
                  (filter (fun r => al_user_id r =? u) (activity_logs w))) /\
      map pa_agent_id (accessible_paid_agents d) =
        map ua_agent_id
          (filter (fun r => ua_user_id r =? u) (user_agent_access w))
  | Raise e => storage_fault E w e
  end.
Proof.
  unfold get_user_dashboard_data, user_turns. run_db. cbn.
  repeat (split_step E; cbn).
  all: first [ faulty | repeat split; cbn; rewrite ?map_map; reflexivity ].
Qed.

(** X14: the dashboard adds up. When [get_user_dashboard_data] returns,
    the agents of [agent_interactions] are pairwise distinct and their
    counts sum to [total_messages]. *)
Theorem dashboard_counts_add_up (u : string) (w : World) (d : dashboard) :
  fst (get_user_dashboard_data E u w) = Ok d ->
  NoDup (map fst (agent_interactions d)) /\
  list_sum (map snd (agent_interactions d)) = total_messages d.
Proof.
  intros Hrun.
  pose proof (get_user_dashboard_data_cases u w) as Hd.
  rewrite Hrun in Hd. destruct Hd as (-> & -> & _).
  rewrite !map_map. cbn. rewrite map_id. split.
  - apply NoDup_nodup.
  - apply groups_cover; [apply NoDup_nodup|].
    intros x Hx. now apply nodup_In.
Qed.

(** X15: when [get_user_dashboard_data] returns, [last_activity] is absent
    exactly when the user has no row in [activity_logs]; otherwise it is
    the creation time of one of the user's rows, and none of them is
    later. *)
Theorem dashboard_last_activity (u : string) (w : World) (d : dashboard) :
  fst (get_user_dashboard_data E u w) = Ok d ->
  match last_activity d with
  | None => forall r, In r (activity_logs w) -> al_user_id r <> u
  | Some t =>
      (exists r, In r (activity_logs w) /\ al_user_id r = u /\
                 al_created_at r = t) /\
      forall r, In r (activity_logs w) -> al_user_id r = u ->
                al_created_at r <= t
  end.
Proof.
  intros Hrun.
  pose proof (get_user_dashboard_data_cases u w) as Hd.
  rewrite Hrun in Hd. destruct Hd as (_ & _ & -> & _).
  pose proof (latest_spec
                (map al_created_at
                   (filter (fun r => al_user_id r =? u) (activity_logs w))))
    as Hlatest.
  destruct (latest _) as [t|].
  - destruct Hlatest as [Hin Hall]. split.
    + apply in_map_iff in Hin as (r & Ht & [Hr Hu]%filter_In).
      apply String.eqb_eq in Hu. now exists r.
    + intros r Hr Hu. rewrite Forall_forall in Hall. apply Hall.
      apply in_map. apply filter_In. split; [assumption|].
      now apply String.eqb_eq.
  - intros r Hr Hu. apply map_eq_nil in Hlatest.
    assert (Hin : In r (filter (fun r => al_user_id r =? u) (activity_logs w))).
    { apply filter_In. split; [assumption | now apply String.eqb_eq]. }
    rewrite Hlatest in Hin. destruct Hin.
Qed.

End Reading.

(** * The generator, the blocking reply, the catalog, payments *)

Lemma deltas_contents (chunks : list stream_chunk) (failure : option exn) :
  (forall c, In c chunks -> choices c <> []) ->
  deltas chunks failure = (flat_map first_content chunks, failure).
Proof.
  induction chunks as [|c chunks IH]; intros Hwell; cbn; [reflexivity|].
  rewrite IH by (intros c' Hc'; apply Hwell; now right).
  unfold first_content.
  destruct (choices c) as [|[s|] rest] eqn:Hc; [|reflexivity ..].
  destruct (Hwell c (or_introl eq_refl) Hc).
Qed.

Lemma deltas_malformed (pre post : list stream_chunk) (bad : stream_chunk)
    (failure : option exn) :
  (forall c, In c pre -> choices c <> []) ->
  choices bad = [] ->
  deltas (pre ++ bad :: post) failure =
  (flat_map first_content pre, Some (IndexError "list index out of range")).
Proof.
  intros Hwell Hbad.
  induction pre as [|c pre IH]; cbn.
  - now rewrite Hbad.
  - rewrite IH by (intros c' Hc'; apply Hwell; now right).
    unfold first_content.
    destruct (choices c) as [|[s|] rest] eqn:Hc; [|reflexivity ..].
    destruct (Hwell c (or_introl eq_refl) Hc).
Qed.

Lemma apology_not_empty (e : exn) : apology e <> EmptyString.
Proof.
  intros Hnone. lazy in Hnone. discriminate Hnone.
Qed.

Lemma last_ten_suffix {A} (history : list A) :
  exists dropped,
    history = dropped ++ last_ten history /\
    length (last_ten history) = Nat.min 10 (length history).
Proof.
  unfold last_ten. exists (firstn (length history - 10) history). split.
  - symmetry. apply firstn_skipn.
  - rewrite length_skipn. lia.
Qed.

Section Replies.

Variable E : Env.

(** X16: the generator yields what the backend streamed, as it streamed
    it. When every chunk of the stream has a choice, the fragments are the
    non-null contents of the first choices, in stream order, none dropped
    or merged and the empty ones included; a stream that ends with an
    exception adds the apology that quotes it, and nothing after it. *)
Theorem stream_yields_contents (agent : Agent) (user_message : string)
    (client : string -> list chat_message -> completion)
    (chunks : list stream_chunk) (failure : option exn) :
  openai_client E = Some client ->
  client model (chat_messages agent user_message) = Streaming chunks failure ->
  (forall c, In c chunks -> choices c <> []) ->
  get_agent_response_stream E (Some agent) user_message =
  (flat_map first_content chunks ++
   match failure with
   | None => []
   | Some e => [apology e]
   end,
   None).
Proof.
  intros Hclient Hstream Hwell. unfold get_agent_response_stream.
  rewrite Hclient, Hstream, (deltas_contents _ _ Hwell).
  destruct failure; cbn; [reflexivity | now rewrite app_nil_r].
Qed.

(** X17: a chunk without choices ends the stream. The generator yields the
    contents of the chunks before it and then the apology for the
    [IndexError]; the chunks after it are never yielded, however the
    stream would have ended. *)
Theorem chunk_without_choices_ends_stream (agent : Agent)
    (user_message : string)
    (client : string -> list chat_message -> completion)
    (pre post : list stream_chunk) (bad : stream_chunk)
    (failure : option exn) :
  openai_client E = Some client ->
  client model (chat_messages agent user_message) =
    Streaming (pre ++ bad :: post) failure ->
  (forall c, In c pre -> choices c <> []) ->
  choices bad = [] ->
  get_agent_response_stream E (Some agent) user_message =
  (flat_map first_content pre ++
   [apology (IndexError "list index out of range")], None).
Proof.
  intros Hclient Hstream Hwell Hbad. unfold get_agent_response_stream.
  now rewrite Hclient, Hstream, (deltas_malformed _ _ _ _ Hwell Hbad).
Qed.

(** X18: the request of the blocking reply is bounded. It is the system
    message, then the last ten messages of the history (all of them when
    there are fewer) in their order, then the user message: at most twelve
    messages, whatever the length of the history. *)
Theorem reply_messages_window (agent : Agent) (user_message : string)
    (conversation_history : list chat_message) :
  exists system dropped kept,
    cm_role system = "system" /\
    conversation_history = dropped ++ kept /\
    length kept = Nat.min 10 (length conversation_history) /\
    reply_messages agent user_message conversation_history =
      system :: kept ++
      [ {| cm_role := "user"; cm_content := user_message |} ] /\
    length (reply_messages agent user_message conversation_history) <= 12.
Proof.
  destruct (last_ten_suffix conversation_history) as (dropped & Hsplit & Hlen).
  assert (Hsame : forall l : list chat_message,
             map (fun msg => {| cm_role := cm_role msg;
                                cm_content := cm_content msg |}) l = l).
  { intros l. rewrite <- (map_id l) at 2. apply map_ext. now intros []. }
  eexists _, dropped, (last_ten conversation_history).
  split; [|split; [exact Hsplit | split; [exact Hlen|]]].
  2:{ unfold reply_messages. rewrite Hsame. split; [reflexivity|].
      cbn [app length]. rewrite length_app, Hlen. cbn [length]. lia. }
  reflexivity.
Qed.

(** X19: the blocking reply is never empty. Whatever the backend does
    (no client, an unknown agent, an exception, no choice, a null or empty
    content), [get_agent_response] returns a text that is not the empty
    string. *)
Theorem blocking_reply_not_empty
    (create_reply : string -> list chat_message -> blocking_completion)
    (agent : option Agent) (user_message : string)
    (conversation_history : list chat_message) :
  get_agent_response E create_reply agent user_message conversation_history
  <> EmptyString.
Proof.
  unfold get_agent_response.
  destruct (openai_client E) as [client|]; [|discriminate].
  destruct agent as [agent|]; [|apply apology_not_empty].
  destruct (create_reply _ _) as [e | [|[c|] rest]];
    try apply apology_not_empty; [|discriminate].
  unfold truthy. destruct (c =? EmptyString) eqn:Hc; cbn; [discriminate|].
  now apply String.eqb_neq.
Qed.

(** X20: the catalog [AgentManager.__init__] builds and the list
    [check_agent_access] hard-codes agree: with that catalog the free
    agents of [get_free_agents] are the list of the database layer, in the
    same order, and [is_agent_free] gives for every agent id the answer of
    the free-agent test of the entitlement check. *)
Theorem initial_catalog_matches_free_list :
  agents E = initial_agents ->
  get_free_agents E = free_agents /\
  forall a, is_agent_free E a = is_free a.
Proof.
  intros Hcatalog. split.
  - unfold get_free_agents. now rewrite Hcatalog.
  - intros a. unfold is_agent_free, get_agent. rewrite Hcatalog.
    unfold initial_agents, is_free, free_agents. cbn [find existsb fst snd].
    rewrite !(String.eqb_sym a).
    repeat match goal with
    | |- context [(?k =? a)%string] =>
        destruct (String.eqb_spec k a) as [<- | _]; try reflexivity
    end.
Qed.

(** X21: an agent that the catalog types "free" is not thereby free for
    the entitlement check. If its id is not in the list the database layer
    hard-codes and the user has no row for it, [is_agent_free] is true and
    yet the entitlement decision is false: [check_agent_access] never
    answers true. *)
Theorem catalog_free_is_not_entitled (agent_id : string) (agent : Agent)
    (u : string) (w : World) :
  get_agent E agent_id = Some agent ->
  agent_type agent = "free" ->
  ~ In agent_id free_agents ->
  (forall r, In r (user_agent_access w) ->
             ~ (ua_user_id r = u /\ ua_agent_id r = agent_id)) ->
  is_agent_free E agent_id = true /\
  entitled u agent_id w = false /\
  forall b, fst (check_agent_access E u agent_id w) = Ok b -> b = false.
Proof.
  intros Hagent Htype Hout Hrows.
  assert (Hno : entitled u agent_id w = false) by now apply not_entitled.
  repeat split.
  - unfold is_agent_free. now rewrite Hagent, Htype.
  - exact Hno.
  - intros b Hcheck.
    pose proof (check_agent_access_cases E u agent_id w) as Hc.
    cbv zeta in Hc. rewrite Hcheck in Hc.
    destruct Hc as (_ & _ & _ & _ & -> & _). exact Hno.
Qed.

Section Paying.

Variable retrieve : string -> result payment_intent.

Lemma verify_payment_cases u a pid w :
  let w' := snd (verify_payment E retrieve u a pid w) in
  (fst (verify_payment E retrieve u a pid w) = Ok true /\
   (exists intent,
       retrieve pid = Ok intent /\ pi_status intent = "succeeded" /\
       pi_user_id intent = Some u /\ pi_agent_id intent = Some a) /\
   exists now,
     user_agent_access w' =
     upsert_access u a (Some pid) now (user_agent_access w)) \/
  (fst (verify_payment E retrieve u a pid w) = Ok false /\
   user_agent_access w' = user_agent_access w).
Proof.
  cbv zeta. unfold verify_payment, try_except.
  destruct (retrieve pid) as [intent|e] eqn:Hintent; [|now right].
  destruct (pi_status intent =? "succeeded") eqn:Hstatus; [|now right].
  destruct (pi_user_id intent) as [u'|] eqn:Hu; [|now right].
  destruct (pi_agent_id intent) as [a'|] eqn:Ha; [|now right].
  destruct ((u' =? u) && (a' =? a)) eqn:Hmatch; [|now right].
  apply andb_prop in Hmatch as [->%String.eqb_eq ->%String.eqb_eq].
  apply String.eqb_eq in Hstatus.
  unfold bind.
  pose proof (grant_agent_access_cases E u a (Some pid) w) as Hgrant.
  cbv zeta in Hgrant.
  destruct (grant_agent_access E u a (Some pid) w) as [[[]|e] w'];
    cbn [fst snd] in *.
  - left. destruct Hgrant as (_ & _ & _ & _ & _ & _ & now & Hrows).
    repeat split; [now exists intent | now exists now].
  - right. now destruct Hgrant as (_ & _ & _ & _ & _ & _ & _ & Hrows).
Qed.

(** X22: [verify_payment] never raises, and grants only what was paid
    for. It answers true only when Stripe reports the intent as succeeded
    with the metadata of this very user and agent, and then the
    entitlement holds; when it answers false, for a failed or foreign
    payment or for any exception, [user_agent_access] is as it was. *)
Theorem verify_payment_grants_what_was_paid (u a pid : string) (w : World) :
  let w' := snd (verify_payment E retrieve u a pid w) in
  exists b,
    fst (verify_payment E retrieve u a pid w) = Ok b /\
    (b = true ->
     entitled u a w' = true /\
     exists intent,
       retrieve pid = Ok intent /\ pi_status intent = "succeeded" /\
       pi_user_id intent = Some u /\ pi_agent_id intent = Some a) /\
    (b = false -> user_agent_access w' = user_agent_access w).
Proof.
  cbv zeta.
  destruct (verify_payment_cases u a pid w)
    as [(Hrun & Hpaid & now & Hrows) | (Hrun & Hrows)].
  - exists true. split; [exact Hrun|]. split; [|discriminate].
    intros _. split; [|exact Hpaid].
    rewrite entitled_rows, Hrows, upsert_grants. apply orb_true_r.
  - exists false. split; [exact Hrun|]. split; [discriminate|].
    intros _. exact Hrows.
Qed.

(** X23: a payment for one agent entitles nobody else and nothing else:
    for any other user or any other agent the entitlement decision is the
    same before and after [verify_payment]. *)
Theorem verify_payment_leaves_others (u a pid : string) (w : World)
    (u' a' : string) :
  u' <> u \/ a' <> a ->
  entitled u' a' (snd (verify_payment E retrieve u a pid w)) =
  entitled u' a' w.
Proof.
  intros Hother.
  destruct (verify_payment_cases u a pid w)
    as [(_ & _ & now & Hrows) | (_ & Hrows)].
  - now rewrite !entitled_rows, Hrows, upsert_other.
  - now apply entitled_same.
Qed.

End Paying.

End Replies.

(** * The second part on concrete inputs *)

(** With a healthy database, a frame that is not an object ends the
    session: the requests after it are not answered. *)
Example unreadable_frame_ends_session :
  sent_during Demo.fresh
    (receive_loop Demo.steady_env (NotAnObject "list" :: Sample.frames)
       Demo.fresh) =
    [ErrorRec "Connection error: 'list' object has no attribute 'get'"] /\
  sent_during Demo.fresh
    (receive_loop Demo.steady_env (Sample.seven :: Sample.frames)
       Demo.fresh) =
    [ErrorRec "Connection error: object of type 'int' has no len()"].
Proof. vm_compute. split; reflexivity. Qed.

Lemma healthy_session_witness :
  healthy Demo.steady_env Demo.fresh /\
  Forall (fun f => read_error f = None) Sample.frames /\
  length (filter is_terminal
            (sent_during Demo.fresh
               (receive_loop Demo.steady_env Sample.frames Demo.fresh))) = 3.
Proof.
  assert (Hw : healthy Demo.steady_env Demo.fresh)
    by (split; [reflexivity | intros n; reflexivity]).
  assert (Hread : Forall (fun f => read_error f = None) Sample.frames)
    by (repeat constructor).
  split; [exact Hw|]. split; [exact Hread|].
  exact (healthy_session_answers_all Demo.steady_env Sample.frames
           Demo.fresh Hw Hread).
Defined.

Lemma disconnect_witness :
  fst (handle_frame Demo.steady_env Sample.seven Demo.fresh) = Disconnected /\
  exists e,
    (read_error Sample.seven = Some e \/
     storage_fault Demo.steady_env Demo.fresh e) /\
    sent_during Demo.fresh
      (snd (handle_frame Demo.steady_env Sample.seven Demo.fresh)) =
      [ErrorRec ("Connection error: " ++ str e)] /\
    Forall (fun r => m_role r = "user")
      (saved_during Demo.fresh
         (snd (handle_frame Demo.steady_env Sample.seven Demo.fresh))).
Proof.
  assert (Hleft : fst (handle_frame Demo.steady_env Sample.seven Demo.fresh)
                  = Disconnected)
    by (vm_compute; reflexivity).
  split; [exact Hleft|].
  exact (proj2 (disconnect_causes Demo.steady_env Sample.seven Demo.fresh)
           Hleft).
Defined.

Lemma grant_leaves_others_witness :
  entitled "u2" "data-scientist"
    (snd (grant_agent_access Demo.quiet "u1" "data-scientist" (Some "pi_1")
            Demo.fresh)) =
  entitled "u2" "data-scientist" Demo.fresh.
Proof.
  apply (grant_leaves_others Demo.quiet "u1" "data-scientist" (Some "pi_1")
           Demo.fresh "u2" "data-scientist").
  left. discriminate.
Defined.

Lemma grant_keeps_unique_witness :
  NoDup (map (fun r => (ua_user_id r, ua_agent_id r))
           (user_agent_access
              (snd (grant_agent_access Demo.quiet "u1" "data-scientist" None
                      Demo.other_holder)))).
Proof.
  apply (grant_keeps_unique Demo.quiet "u1" "data-scientist" None
           Demo.other_holder).
  constructor; [intros [] | constructor].
Defined.

Lemma grant_twice_witness :
  length (user_agent_access
            (snd (grant_agent_access Demo.quiet "u1" "data-scientist"
                    (Some "pi_2")
                    (snd (grant_agent_access Demo.quiet "u1" "data-scientist"
                            (Some "pi_1") Demo.fresh))))) =
  length (user_agent_access
            (snd (grant_agent_access Demo.quiet "u1" "data-scientist"
                    (Some "pi_1") Demo.fresh))).
Proof.
  apply (grant_twice_updates Demo.quiet "u1" "data-scientist"
           (Some "pi_1") (Some "pi_2") Demo.fresh
           (snd (grant_agent_access Demo.quiet "u1" "data-scientist"
                   (Some "pi_1") Demo.fresh))
           (snd (grant_agent_access Demo.quiet "u1" "data-scientist"
                   (Some "pi_2")
                   (snd (grant_agent_access Demo.quiet "u1" "data-scientist"
                           (Some "pi_1") Demo.fresh))))).
  - vm_compute; reflexivity.
  - vm_compute; reflexivity.
Defined.

Lemma accessible_agents_witness :
  In "data-scientist" ["creative-writer"; "code-helper"; "research-assistant";
                       "data-scientist"] <->
  entitled "u2" "data-scientist" Demo.other_holder = true.
Proof.
  apply (accessible_agents_are_the_entitled Demo.quiet "u2"
           Demo.other_holder).
  vm_compute; reflexivity.
Defined.

Lemma conversation_messages_witness :
  StronglySorted (fun a b => mv_created_at a <= mv_created_at b)
    [ {| mv_role := "user"; mv_content := "hi"; mv_created_at := 108 |};
      {| mv_role := "assistant"; mv_content := "Hello";
         mv_created_at := 111 |} ] /\
  Permutation
    [ {| mv_role := "user"; mv_content := "hi"; mv_created_at := 108 |};
      {| mv_role := "assistant"; mv_content := "Hello";
         mv_created_at := 111 |} ]
    (map (fun m => {| mv_role := m_role m; mv_content := m_content m;
                      mv_created_at := m_created_at m |})
         (filter (fun m => m_conversation_id m =? "f-uuid")
                 (messages Sample.after_chat))).
Proof.
  apply (conversation_messages_sorted Demo.quiet "f-uuid" Sample.after_chat).
  vm_compute; reflexivity.
Defined.

Lemma saved_message_witness :
  exists ts,
    In {| mv_role := "user"; mv_content := "hello"; mv_created_at := ts |}
       [ {| mv_role := "user"; mv_content := "hello";
            mv_created_at := 103 |} ].
Proof.
  apply (saved_message_is_listed Demo.quiet "c1" "user" "hello" Demo.fresh).
  - vm_compute; reflexivity.
  - vm_compute; reflexivity.
Defined.

Lemma dashboard_counts_witness :
  NoDup (map fst [("creative-writer", 1)]) /\
  list_sum (map snd [("creative-writer", 1)]) = 1.
Proof.
  apply (dashboard_counts_add_up Demo.quiet "u1" Sample.after_chat
           {| total_messages := 1;
              agent_interactions := [("creative-writer", 1)];
              last_activity := Some 114;
              accessible_paid_agents := [] |}).
  vm_compute; reflexivity.
Defined.

Lemma dashboard_last_activity_witness :
  (exists r, In r (activity_logs Sample.after_chat) /\ al_user_id r = "u1" /\
             al_created_at r = 114) /\
  forall r, In r (activity_logs Sample.after_chat) -> al_user_id r = "u1" ->
            al_created_at r <= 114.
Proof.
  apply (dashboard_last_activity Demo.quiet "u1" Sample.after_chat
           {| total_messages := 1;
              agent_interactions := [("creative-writer", 1)];
              last_activity := Some 114;
              accessible_paid_agents := [] |}).
  vm_compute; reflexivity.
Defined.

Lemma stream_contents_witness :
  get_agent_response_stream Demo.steady_env
    (Some {| agent_type := "free";
             system_prompt :=
               Some "You are a creative writing assistant." |}) "hi" =
  (flat_map first_content
     [ {| choices := [Some "Hel"] |}; {| choices := [None] |};
       {| choices := [Some "lo"] |} ] ++ [], None).
Proof.
  apply (stream_yields_contents Demo.steady_env _ "hi" Demo.steady
           [ {| choices := [Some "Hel"] |}; {| choices := [None] |};
             {| choices := [Some "lo"] |} ] None).
  - vm_compute; reflexivity.
  - vm_compute; reflexivity.
  - intros c [<- | [<- | [<- | []]]]; discriminate.
Defined.

Lemma chunk_without_choices_witness :
  get_agent_response_stream Sample.broken_env
    (Some {| agent_type := "free";
             system_prompt :=
               Some "You are a creative writing assistant." |}) "hi" =
  (flat_map first_content [ {| choices := [Some "Hel"] |} ] ++
   [apology (IndexError "list index out of range")], None).
Proof.
  apply (chunk_without_choices_ends_stream Sample.broken_env _ "hi"
           Sample.broken
           [ {| choices := [Some "Hel"] |} ]
           [ {| choices := [Some "lo"] |} ]
           {| choices := [] |} None).
  - vm_compute; reflexivity.
  - vm_compute; reflexivity.
  - intros c [<- | []]; discriminate.
  - vm_compute; reflexivity.
Defined.

Lemma initial_catalog_witness :
  get_free_agents Sample.initial_env = free_agents /\
  forall a, is_agent_free Sample.initial_env a = is_free a.
Proof.
  apply (initial_catalog_matches_free_list Sample.initial_env).
  vm_compute; reflexivity.
Defined.

Lemma catalog_free_witness :
  is_agent_free Sample.custom_env "poet" = true /\
  entitled "u1" "poet" Demo.other_holder = false /\
  forall b,
    fst (check_agent_access Sample.custom_env "u1" "poet" Demo.other_holder)
    = Ok b -> b = false.
Proof.
  apply (catalog_free_is_not_entitled Sample.custom_env "poet" Sample.poet
           "u1" Demo.other_holder).
  - vm_compute; reflexivity.
  - vm_compute; reflexivity.
  - intros [H | [H | [H | []]]]; discriminate H.
  - intros r [<- | []] [Hu _]. discriminate Hu.
Defined.

Lemma verify_payment_leaves_others_witness :
  entitled "u2" "business-advisor"
    (snd (verify_payment Demo.quiet Sample.stripe "u1" "data-scientist"
            "pi_1" Demo.fresh)) =
  entitled "u2" "business-advisor" Demo.fresh.
Proof.
  apply (verify_payment_leaves_others Demo.quiet Sample.stripe "u1"
           "data-scientist" "pi_1" Demo.fresh "u2" "business-advisor").
  left. discriminate.
Defined.

(** A payment by "u1" for "data-scientist" entitles "u1" to it, and asking
    for another agent with the same intent is refused. *)
Example paid_access_is_granted :
  fst (verify_payment Demo.quiet Sample.stripe "u1" "data-scientist" "pi_1"
         Demo.fresh) = Ok true /\
  fst (verify_payment Demo.quiet Sample.stripe "u1" "business-advisor" "pi_1"
         Demo.fresh) = Ok false /\
  fst (verify_payment Demo.quiet Sample.stripe "u1" "data-scientist" "pi_9"
         Demo.fresh) = Ok false.
Proof. vm_compute. repeat split. Qed.
